(** * Route analysis and multi-city optimisation of the transport agent

    A shallow embedding of [src/agent/tools.py]: the duration parser
    [parse_iso_duration_to_minutes], the single-route analyser
    [analyze_best_routes] and the multi-city optimiser
    [optimize_multi_city_route], followed by the properties of the
    specification that concern them.

    Modelling conventions.
    - A Python [str] is a [string]; the durations handled are ASCII text,
      so the digits matched by the pattern's [\d] are ['0'..'9'].
    - A Python [int] is a [Z] (unbounded).  The values that flow through
      the duration arithmetic are ints, the float [inf] returned for an
      unparseable duration, and what Python computes from them; they are
      the type [num] below.
    - A JSON price is the rational number it denotes ([Q]).  Python
      compares ints and finite floats exactly; the price difference and
      its two-decimal rendering are taken over the rationals, which is
      what Python computes for the integer prices of the scenarios.
    - A [try]/[except Exception] block is the exception monad [exc]: the
      body either returns or raises, and the handler turns a raise into
      the structured error it reports.
    - The identity [id(opt)] of an element of a freshly decoded JSON list
      is its position in that list. *)

From Stdlib Require Import List String Ascii ZArith QArith Qround Lia Lqa Bool Arith
  Permutation DecimalString.
From Stdlib Require DecimalN.
Import ListNotations.

Local Open Scope string_scope.
Local Open Scope Z_scope.

(** ** Exceptions *)

Inductive pyexn : Type := ValueError | TypeError.

Inductive exc (A : Type) : Type :=
| Return (a : A)
| Raise (e : pyexn).
Arguments Return {A} a.
Arguments Raise {A} e.

Definition bind {A B : Type} (m : exc A) (k : A -> exc B) : exc B :=
  match m with
  | Return a => k a
  | Raise e => Raise e
  end.

Notation "x <- m ;; k" := (bind m (fun x => k))
  (at level 61, m at next level, right associativity).

(** ** Numbers of the duration arithmetic

    [Int z] is a Python int; [PosInf], [NegInf] and [NaN] are the floats
    that arise from [float('inf')]. *)

Inductive num : Type :=
| Int (z : Z)
| PosInf
| NegInf
| NaN.

(** [a < b] *)
Definition num_lt (a b : num) : bool :=
  match a, b with
  | Int x, Int y => x <? y
  | Int _, PosInf => true
  | NegInf, Int _ => true
  | NegInf, PosInf => true
  | _, _ => false
  end.

(** [a > b] *)
Definition num_gt (a b : num) : bool := num_lt b a.

(** [a != float('inf')] *)
Definition num_ne_inf (a : num) : bool :=
  match a with
  | PosInf => false
  | _ => true
  end.

(** [a + b] *)
Definition num_add (a b : num) : num :=
  match a, b with
  | Int x, Int y => Int (x + y)
  | NaN, _ | _, NaN => NaN
  | PosInf, NegInf | NegInf, PosInf => NaN
  | PosInf, _ | _, PosInf => PosInf
  | NegInf, _ | _, NegInf => NegInf
  end.

(** [a - b] *)
Definition num_sub (a b : num) : num :=
  match a, b with
  | Int x, Int y => Int (x - y)
  | NaN, _ | _, NaN => NaN
  | PosInf, PosInf | NegInf, NegInf => NaN
  | PosInf, _ | _, NegInf => PosInf
  | NegInf, _ | _, PosInf => NegInf
  end.

(** [a // 60]: floor division of an int is exact; of an infinite float
    it is [nan] (CPython computes it from [fmod(inf, 60)], which is nan). *)
Definition num_floordiv60 (a : num) : num :=
  match a with
  | Int x => Int (x / 60)
  | _ => NaN
  end.

(** [a % 60] *)
Definition num_mod60 (a : num) : num :=
  match a with
  | Int x => Int (x mod 60)
  | _ => NaN
  end.

(** [int(a)]: [int(nan)] raises ValueError, [int] of an infinity raises
    OverflowError (reported through the same handler; it does not arise
    here, [//] and [%] having produced nan before). *)
Definition py_int (a : num) : exc Z :=
  match a with
  | Int x => Return x
  | _ => Raise ValueError
  end.

(** ** Text *)

Definition is_digit (c : ascii) : bool :=
  let n := nat_of_ascii c in (48 <=? n)%nat && (n <=? 57)%nat.

Definition digit_value (c : ascii) : Z := Z.of_nat (nat_of_ascii c) - 48.

(** [int(ds)] for a string of digits, most significant first.  CPython
    3.11 and later refuse, with a ValueError, a run of more than 4300
    digits unless configured otherwise; the model converts any run. *)
Fixpoint int_of_digits_from (acc : Z) (ds : string) : Z :=
  match ds with
  | EmptyString => acc
  | String c r => int_of_digits_from (10 * acc + digit_value c) r
  end.

Definition int_of_digits (ds : string) : Z := int_of_digits_from 0 ds.

(** The longest run of digits at the head of [s], and what follows it:
    the greedy match of [\d*]. *)
Fixpoint span_digits (s : string) : string * string :=
  match s with
  | String c r =>
      if is_digit c
      then let '(ds, rest) := span_digits r in (String c ds, rest)
      else (EmptyString, s)
  | EmptyString => (EmptyString, EmptyString)
  end.

(** One optional group [(?:(\d+)X)?] of the pattern, matched at the head
    of [s]: the captured digits (or [None] when the group does not
    take part) and the rest of the input.  [\d+] is greedy; giving digits
    back cannot help, because the character after a shorter run is a
    digit and not the unit letter, so the group matches exactly when the
    longest run is non-empty and followed by the letter. *)
Definition match_group (letter : ascii) (s : string) : option string * string :=
  match span_digits s with
  | (EmptyString, _) => (None, s)
  | (ds, String c rest) => if Ascii.eqb c letter then (Some ds, rest) else (None, s)
  | (_, EmptyString) => (None, s)
  end.

(** [re.match(r'PT(?:(\d+)H)?(?:(\d+)M)?', s)]: the groups, or [None]
    when the pattern does not match at the start of [s].  [re.match]
    anchors the start only; what follows the match is not looked at. *)
Definition re_match (s : string) : option (option string * option string) :=
  match s with
  | String "P" (String "T" r) =>
      let '(h, r1) := match_group "H" r in
      let '(m, _) := match_group "M" r1 in
      Some (h, m)
  | _ => None
  end.

(** [parse_iso_duration_to_minutes] *)
Definition parse_iso_duration_to_minutes (iso_duration : string) : num :=
  match re_match iso_duration with
  | None => PosInf
  | Some (g1, g2) =>
      let hours := match g1 with Some ds => int_of_digits ds | None => 0 end in
      let minutes := match g2 with Some ds => int_of_digits ds | None => 0 end in
      Int (hours * 60 + minutes)
  end.

(** [str(n)] for a non-negative int. *)
Definition string_of_nonneg (n : Z) : string :=
  NilZero.string_of_uint (N.to_uint (Z.to_N n)).

(** [f"{x:.2f}"] for [x >= 0]: the nearest multiple of 1/100, ties to
    the even one, written with two decimals.  It is only applied to
    positive differences. *)
Definition format_2f (x : Q) : string :=
  let n := Qnum x * 100 in
  let d := Zpos (Qden x) in
  let q := n / d in
  let r := n mod d in
  let hundredths :=
    if (2 * r >? d) || ((2 * r =? d) && Z.odd q) then q + 1 else q in
  let frac := hundredths mod 100 in
  string_of_nonneg (hundredths / 100) ++ "." ++
  (if frac <? 10 then "0" else "") ++ string_of_nonneg frac.

(** [a < b] on prices. *)
Definition Qltb (a b : Q) : bool := negb (Qle_bool b a).

(** ** Offers *)

(** The [duration] entry of an option: the key may be missing, hold JSON
    [null], or hold a string. *)
Inductive duration_field : Type :=
| DurationAbsent
| DurationNull
| DurationStr (s : string).

(** One transportation option (a decoded JSON object).  [price] is
    [None] when the key is missing or holds [null]; [currency] is [None]
    when the key is missing. *)
Record offer : Type := mkOffer {
  mode : string;
  price : option Q;
  currency : option string;
  duration : duration_field
}.

(** [opt.get('price') is not None] *)
Definition has_price (opt : offer) : bool :=
  match price opt with
  | Some _ => true
  | None => false
  end.

(** [opt['price']], read on options that have one. *)
Definition price_of (opt : offer) : Q :=
  match price opt with
  | Some p => p
  | None => 0%Q
  end.

(** [opt.get('currency', 'EUR')] *)
Definition currency_of (opt : offer) : string :=
  match currency opt with
  | Some c => c
  | None => "EUR"
  end.

(** [opt.get('duration')] when it is truthy: a non-empty string. *)
Definition truthy_duration (opt : offer) : option string :=
  match duration opt with
  | DurationStr s => if String.eqb s "" then None else Some s
  | _ => None
  end.

(** [parse_iso_duration_to_minutes(opt['duration'])], read on options
    whose duration is truthy. *)
Definition minutes_of (opt : offer) : num :=
  match truthy_duration opt with
  | Some s => parse_iso_duration_to_minutes s
  | None => PosInf
  end.

(** [opt.get('duration') and parse_iso_duration_to_minutes(opt['duration']) != float('inf')] *)
Definition has_duration (opt : offer) : bool :=
  match truthy_duration opt with
  | Some s => num_ne_inf (parse_iso_duration_to_minutes s)
  | None => false
  end.

(** ** [min(iterable, key=...)]

    Python keeps the first item and replaces it by a later one only when
    the later key is strictly smaller. *)
Section PyMin.
Context {A K : Type} (key : A -> K) (lt : K -> K -> bool).

Fixpoint min_loop (best : A) (l : list A) : A :=
  match l with
  | [] => best
  | x :: r => min_loop (if lt (key x) (key best) then x else best) r
  end.

Definition py_min (l : list A) : option A :=
  match l with
  | [] => None
  | x :: r => Some (min_loop x r)
  end.
End PyMin.

(** The elements of a list paired with their positions: the position
    stands for [id(opt)]. *)
Fixpoint enumerate_from {A : Type} (i : nat) (l : list A) : list (nat * A) :=
  match l with
  | [] => []
  | x :: r => (i, x) :: enumerate_from (S i) r
  end.

Definition enumerate {A : Type} (l : list A) : list (nat * A) := enumerate_from 0 l.

(** ** [analyze_best_routes] *)

Record discarded_entry : Type := mkDiscarded {
  d_id : nat;
  d_option : offer;
  d_reasons : list string
}.

Record analysis : Type := mkAnalysis {
  total_options_analyzed : nat;
  options_with_price_count : nat;
  options_with_duration_count : nat;
  cheapest : nat * offer;
  fastest : option (nat * offer);
  same_option : bool;
  discarded : list discarded_entry
}.

(** What the tool returns: one of its error objects or the analysis. *)
Inductive analyze_result : Type :=
| InvalidJsonInput                  (* "Invalid JSON input" *)
| NoOptionsProvided                 (* "No options provided to analyze" *)
| NoOptionsWithValidPrices          (* "No options with valid prices" *)
| AnalysisFailed (e : pyexn)        (* "Analysis failed" *)
| Analysis (a : analysis).

(** The argument after [json.loads]: text that does not decode, an
    object without a truthy ["options"] entry to read (the key missing),
    or the list under ["options"]. *)
Inductive payload : Type :=
| Undecodable
| OptionsMissing
| Options (options : list offer).

(** Lines 583-586: the price comparison of one discarded option. *)
Definition price_reasons (opt cheapest_opt : offer) : list string :=
  match price opt with
  | Some p =>
      let price_diff := (p - price_of cheapest_opt)%Q in
      if Qltb 0 price_diff
      then [format_2f price_diff ++ " " ++ currency_of opt ++ " more expensive than cheapest"]
      else []
  | None => []
  end.

(** [f"{hours_diff}h {mins_diff}m" if hours_diff > 0 else f"{mins_diff}m"] *)
Definition time_str (hours_diff mins_diff : Z) : string :=
  if hours_diff >? 0
  then string_of_nonneg hours_diff ++ "h " ++ string_of_nonneg mins_diff ++ "m"
  else string_of_nonneg mins_diff ++ "m".

(** Lines 589-597: the duration comparison of one discarded option. *)
Definition duration_reasons (opt : offer) (fastest_opt : option offer) : exc (list string) :=
  match truthy_duration opt, fastest_opt with
  | Some d, Some f =>
      match truthy_duration f with
      | Some fd =>
          let opt_minutes := parse_iso_duration_to_minutes d in
          let fastest_minutes := parse_iso_duration_to_minutes fd in
          if num_gt opt_minutes fastest_minutes then
            let time_diff := num_sub opt_minutes fastest_minutes in
            hours_diff <- py_int (num_floordiv60 time_diff) ;;
            mins_diff <- py_int (num_mod60 time_diff) ;;
            Return [time_str hours_diff mins_diff ++ " slower than fastest"]
          else Return []
      | None => Return []
      end
  | _, _ => Return []
  end.

(** Lines 580-600: the reasons of one discarded option. *)
Definition reasons_for (opt cheapest_opt : offer) (fastest_opt : option offer)
  : exc (list string) :=
  timed <- duration_reasons opt fastest_opt ;;
  let reasons := (price_reasons opt cheapest_opt ++ timed)%list in
  Return (match reasons with
          | [] => ["Not the cheapest or fastest option"]
          | _ => reasons
          end).

(** Lines 577-605: the loop over all options. *)
Fixpoint build_discarded (recommended_ids : list nat) (cheapest_opt : offer)
  (fastest_opt : option offer) (options : list (nat * offer))
  : exc (list discarded_entry) :=
  match options with
  | [] => Return []
  | (opt_id, opt) :: rest =>
      if existsb (Nat.eqb opt_id) recommended_ids
      then build_discarded recommended_ids cheapest_opt fastest_opt rest
      else
        reasons <- reasons_for opt cheapest_opt fastest_opt ;;
        more <- build_discarded recommended_ids cheapest_opt fastest_opt rest ;;
        Return (mkDiscarded opt_id opt reasons :: more)
  end.

(** Lines 545 and 554: the cheapest of the options that have a price. *)
Definition options_with_price (options : list offer) : list (nat * offer) :=
  filter (fun io => has_price (snd io)) (enumerate options).

Definition select_cheapest (options : list offer) : option (nat * offer) :=
  py_min (fun io => price_of (snd io)) Qltb (options_with_price options).

(** Lines 557-564: the fastest of the options whose duration parses. *)
Definition options_with_duration (options : list offer) : list (nat * offer) :=
  filter (fun io => has_duration (snd io)) (enumerate options).

Definition select_fastest (options : list offer) : option (nat * offer) :=
  py_min (fun io => minutes_of (snd io)) num_lt (options_with_duration options).

(** Lines 568-574: the identities of the recommended options. *)
Definition recommended (cheapest_sel : nat * offer) (fastest_sel : option (nat * offer))
  : list nat :=
  fst cheapest_sel ::
  match fastest_sel with
  | Some f => if Nat.eqb (fst f) (fst cheapest_sel) then [] else [fst f]
  | None => []
  end.

(** The body of the [try] block once the options are known to have a
    cheapest: lines 556-621. *)
Definition analyze_options (options : list offer) (cheapest_sel : nat * offer)
  : exc analysis :=
  let fastest_sel := select_fastest options in
  let recommended_ids := recommended cheapest_sel fastest_sel in
  discarded_list <- build_discarded recommended_ids (snd cheapest_sel)
                      (option_map snd fastest_sel) (enumerate options) ;;
  Return {|
    total_options_analyzed := List.length options;
    options_with_price_count := List.length (options_with_price options);
    options_with_duration_count := List.length (options_with_duration options);
    cheapest := cheapest_sel;
    fastest := fastest_sel;
    same_option :=
      match fastest_sel with
      | Some f => Nat.eqb (fst cheapest_sel) (fst f)
      | None => false
      end;
    discarded := discarded_list
  |}.

Definition analyze_best_routes (all_options_json : payload) : analyze_result :=
  match all_options_json with
  | Undecodable => InvalidJsonInput
  | OptionsMissing => NoOptionsProvided
  | Options [] => NoOptionsProvided
  | Options options =>
      match select_cheapest options with
      | None => NoOptionsWithValidPrices
      | Some cheapest_sel =>
          match analyze_options options cheapest_sel with
          | Return a => Analysis a
          | Raise e => AnalysisFailed e
          end
      end
  end.

(** The scenario of the specification. *)
Definition bus_45 : offer := mkOffer "bus" (Some (45#1)) None (DurationStr "PT12H0M").
Definition flight_120 : offer := mkOffer "flight" (Some (120#1)) None (DurationStr "PT2H30M").
Definition train_95 : offer := mkOffer "train" (Some (95#1)) None (DurationStr "PT8H0M").

(** ** [itertools.permutations]

    The orderings of a list by position, in the lexicographic order of
    the positions, which is the order in which Python yields them. *)

(** Each element of a list with the others, in order. *)
Fixpoint selections {A : Type} (l : list A) : list (A * list A) :=
  match l with
  | [] => []
  | x :: r => (x, r) :: map (fun yr => (fst yr, x :: snd yr)) (selections r)
  end.

Fixpoint orderings {A : Type} (n : nat) (l : list A) : list (list A) :=
  match n with
  | O => [[]]
  | S n' =>
      flat_map (fun xr => map (cons (fst xr)) (orderings n' (snd xr))) (selections l)
  end.

Definition permutations {A : Type} (l : list A) : list (list A) :=
  orderings (List.length l) l.

(** ** [optimize_multi_city_route] *)

Record leg : Type := mkLeg {
  leg_from : string;
  leg_to : string;
  leg_date : string;
  leg_option : offer
}.

(** An entry of [complete_routes].  The rounded [total_duration_hours]
    is display only and is left out. *)
Record complete_route : Type := mkRoute {
  route : list string;
  total_price : Q;
  total_duration_minutes : num;
  legs : list leg
}.

Record discarded_route : Type := mkDiscardedRoute {
  dr_id : nat;
  dr_route : list string;
  dr_total_price : Q;
  dr_reasons : list string
}.

Record optimization : Type := mkOptimization {
  total_routes_analyzed : nat;
  cheapest_route : nat * complete_route;
  fastest_route : nat * complete_route;
  same_route : bool;
  discarded_routes : list discarded_route
}.

Inductive optimize_result : Type :=
| InvalidJsonCities                     (* "Invalid JSON input for cities" *)
| NeedAtLeastTwoCities                  (* "Need at least 2 cities to optimize route" *)
| NoValidRoutes                         (* "Could not find valid routes for any permutation" *)
| RouteOptimizationFailed (e : pyexn)   (* "Route optimization failed" *)
| Optimization (o : optimization).

(** [cities_json] after [json.loads]. *)
Inductive cities_payload : Type :=
| CitiesUndecodable
| NotAList
| Cities (cities : list string).

(** [opt.get('price')] used as a condition (line 736): a price that is
    present and not zero. *)
Definition truthy_price (opt : offer) : bool :=
  match price opt with
  | Some p => negb (Qeq_bool p 0)
  | None => false
  end.

(** [parse_iso_duration_to_minutes(best_leg.get('duration', 'PT0M'))]:
    the default stands in for a missing key only; [null] reaches
    [re.match], which raises TypeError. *)
Definition leg_minutes (best_leg : offer) : exc num :=
  match duration best_leg with
  | DurationAbsent => Return (parse_iso_duration_to_minutes "PT0M")
  | DurationNull => Raise TypeError
  | DurationStr s => Return (parse_iso_duration_to_minutes s)
  end.

(** Lines 735-741: the option that represents a leg. *)
Definition pick_best_leg (options : list offer) : option offer :=
  py_min price_of Qltb (filter truthy_price options).

(** Lines 788-802: the reasons of one discarded route. *)
Definition route_reasons (r cheapest_r fastest_r : complete_route) : exc (list string) :=
  let price_diff := (total_price r - total_price cheapest_r)%Q in
  let priced :=
    if Qltb 0 price_diff
    then [format_2f price_diff ++ " EUR more expensive than cheapest route"]
    else [] in
  let time_diff := num_sub (total_duration_minutes r) (total_duration_minutes fastest_r) in
  timed <-
    (if num_gt time_diff (Int 0) then
       hours <- py_int (num_floordiv60 time_diff) ;;
       mins <- py_int (num_mod60 time_diff) ;;
       Return [time_str hours mins ++ " slower than fastest route"]
     else Return []) ;;
  Return (match (priced ++ timed)%list with
          | [] => ["Not the cheapest or fastest route order"]
          | reasons => reasons
          end).

(** Lines 784-809. *)
Fixpoint build_discarded_routes (recommended_ids : list nat)
  (cheapest_r fastest_r : complete_route) (routes : list (nat * complete_route))
  : exc (list discarded_route) :=
  match routes with
  | [] => Return []
  | (rid, r) :: rest =>
      if existsb (Nat.eqb rid) recommended_ids
      then build_discarded_routes recommended_ids cheapest_r fastest_r rest
      else
        reasons <- route_reasons r cheapest_r fastest_r ;;
        more <- build_discarded_routes recommended_ids cheapest_r fastest_r rest ;;
        Return (mkDiscardedRoute rid (route r) (total_price r) reasons :: more)
  end.

Fixpoint cities_eqb (a b : list string) : bool :=
  match a, b with
  | [], [] => true
  | x :: a', y :: b' => String.eqb x y && cities_eqb a' b'
  | _, _ => false
  end.

Section Optimizer.

(** The leg search: the list under ["options"] in the reply of
    [search_all_transport] for an origin, a destination and a date,
    empty when the reply has no such entry. *)
Variable search_all_transport : string -> string -> string -> list offer.

(** [strptime], one day added, [strftime]; [None] when the date is not
    in the [%Y-%m-%d] format and [strptime] raises ValueError. *)
Variable next_day : string -> option string.

Definition advance (current_date : string) : exc string :=
  match next_day current_date with
  | Some d => Return d
  | None => Raise ValueError
  end.

(** Lines 715-757: the legs of one permutation.  [None] is
    [route_valid = False]; the two guards of the loop (no options, no
    option with a price) both end the walk that way. *)
Fixpoint walk_legs (route_cities : list string) (current_date : string)
  (legs_so_far : list leg) (price_so_far : Q) (minutes_so_far : num)
  : exc (option (list leg * Q * num)) :=
  match route_cities with
  | origin :: rest =>
      match rest with
      | destination :: _ =>
          match pick_best_leg (search_all_transport origin destination current_date) with
          | None => Return None
          | Some best_leg =>
              let legs' := (legs_so_far ++ [mkLeg origin destination current_date best_leg])%list in
              let price' := (price_so_far + price_of best_leg)%Q in
              leg_duration <- leg_minutes best_leg ;;
              let minutes' := num_add minutes_so_far leg_duration in
              next_date <- advance current_date ;;
              walk_legs rest next_date legs' price' minutes'
          end
      | [] => Return (Some (legs_so_far, price_so_far, minutes_so_far))
      end
  | [] => Return (Some (legs_so_far, price_so_far, minutes_so_far))
  end.

(** Lines 706-766: one permutation, a complete route when valid. *)
Definition evaluate_permutation (departure_date : string) (perm : list string)
  : exc (option complete_route) :=
  walked <- walk_legs perm departure_date [] 0%Q (Int 0) ;;
  Return (match walked with
          | Some (ls, p, m) => Some (mkRoute perm p m ls)
          | None => None
          end).

(** Lines 703-766: [complete_routes]. *)
Fixpoint collect_routes (departure_date : string) (perms : list (list string))
  : exc (list complete_route) :=
  match perms with
  | [] => Return []
  | perm :: rest =>
      r <- evaluate_permutation departure_date perm ;;
      more <- collect_routes departure_date rest ;;
      Return (match r with
              | Some cr => cr :: more
              | None => more
              end)
  end.

(** Lines 776-825: ranking of the valid routes. *)
Definition rank_routes (complete_routes : list complete_route)
  (cheapest_sel fastest_sel : nat * complete_route) : exc optimization :=
  let recommended_ids := [fst cheapest_sel; fst fastest_sel] in
  discarded_list <- build_discarded_routes recommended_ids (snd cheapest_sel)
                      (snd fastest_sel) (enumerate complete_routes) ;;
  Return {|
    total_routes_analyzed := List.length complete_routes;
    cheapest_route := cheapest_sel;
    fastest_route := fastest_sel;
    same_route := cities_eqb (route (snd cheapest_sel)) (route (snd fastest_sel));
    discarded_routes := discarded_list
  |}.

Definition optimize_body (cities : list string) (departure_date : string)
  : exc optimize_result :=
  let all_permutations := permutations cities in
  complete_routes <- collect_routes departure_date all_permutations ;;
  match py_min (fun ir => total_price (snd ir)) Qltb (enumerate complete_routes),
        py_min (fun ir => total_duration_minutes (snd ir)) num_lt (enumerate complete_routes) with
  | Some cheapest_sel, Some fastest_sel =>
      o <- rank_routes complete_routes cheapest_sel fastest_sel ;;
      Return (Optimization o)
  | _, _ => Return NoValidRoutes
  end.

Definition optimize_multi_city_route (cities_json : cities_payload)
  (departure_date : string) : optimize_result :=
  match cities_json with
  | CitiesUndecodable => InvalidJsonCities
  | NotAList => NeedAtLeastTwoCities
  | Cities cities =>
      if (List.length cities <? 2)%nat then NeedAtLeastTwoCities
      else
        match optimize_body cities departure_date with
        | Return r => r
        | Raise e => RouteOptimizationFailed e
        end
  end.

End Optimizer.

(** ** Vocabulary of the properties and example data *)

(** Modelled on the wording of the specification: the text of a duration
    of the expected grammar, ["PT"], then optionally a run of digits with
    ["H"], then optionally a run of digits with ["M"], and nothing else. *)
Definition group_text (g : option string) (letter : string) : string :=
  match g with
  | Some ds => ds ++ letter
  | None => ""
  end.

Definition duration_text (h m : option string) : string :=
  "PT" ++ group_text h "H" ++ group_text m "M".

Fixpoint all_digits (ds : string) : bool :=
  match ds with
  | EmptyString => true
  | String c r => is_digit c && all_digits r
  end.

(** A non-empty run of digits. *)
Definition digits (ds : string) : bool :=
  match ds with
  | EmptyString => false
  | _ => all_digits ds
  end.

Definition group_ok (g : option string) : bool :=
  match g with
  | Some ds => digits ds
  | None => true
  end.

Definition group_value (g : option string) : Z :=
  match g with
  | Some ds => int_of_digits ds
  | None => 0
  end.

(** A string is of the expected grammar when it is such a text. *)
Definition duration_grammar (s : string) : Prop :=
  exists h m, group_ok h = true /\ group_ok m = true /\ s = duration_text h m.

(** The literal head of the pattern. *)
Definition starts_with_PT (s : string) : bool :=
  match s with
  | String "P" (String "T" _) => true
  | _ => false
  end.

Definition unpriced_train : offer :=
  mkOffer "train" None (Some "EUR") (DurationStr "PT3H10M").

(** Positions grow along an enumeration, also after filtering. *)
Inductive ascending {A : Type} : list (nat * A) -> Prop :=
| ascending_nil : ascending []
| ascending_cons (x : nat * A) (l : list (nat * A)) :
    Forall (fun y => (fst x < fst y)%nat) l -> ascending l -> ascending (x :: l).

(** An option whose duration parses to [z] minutes: it holds a string
    that the parser turns into the finite number [z]. *)
Definition parses_to (opt : offer) (z : Z) : Prop :=
  exists s, duration opt = DurationStr s /\ parse_iso_duration_to_minutes s = Int z.

Definition hourly_train : offer :=
  mkOffer "train" (Some (10#1)) (Some "EUR") (DurationStr "PT1H").
Definition garbled_bus : offer :=
  mkOffer "bus" (Some (20#1)) (Some "EUR") (DurationStr "garbage").

Definition overnight_flight : offer :=
  mkOffer "flight" (Some (95#1)) None (DurationStr "P1DT2H30M").

Definition same_price_ferry : offer :=
  mkOffer "ferry" (Some (10#1)) (Some "EUR") (DurationStr "n/a").

Definition free_shuttle : offer :=
  mkOffer "bus" (Some (0#1)) (Some "EUR") (DurationStr "PT1H").
Definition paid_train : offer :=
  mkOffer "train" (Some (10#1)) (Some "EUR") (DurationStr "PT2H").

(** A leg search that always finds the free shuttle alone. *)
Definition shuttle_only (origin destination date : string) : list offer :=
  [free_shuttle].

(** The days after the 15th of November 2025, as far as the examples
    go. *)
Definition mid_november (date : string) : option string :=
  if String.eqb date "2025-11-15" then Some "2025-11-16"
  else if String.eqb date "2025-11-16" then Some "2025-11-17"
  else if String.eqb date "2025-11-17" then Some "2025-11-18"
  else None.

(** The values a parsed duration can take: a non-negative int or
    infinity. *)
Definition nonneg (a : num) : Prop :=
  match a with
  | Int z => 0 <= z
  | PosInf => True
  | _ => False
  end.

Definition unscheduled_coach : offer :=
  mkOffer "bus" (Some (30#1)) None (DurationStr "unknown").
Definition walk_up_ferry : offer :=
  mkOffer "ferry" (Some (12#1)) None DurationAbsent.

(** A leg search: out of Paris the coach without a usable duration, from
    anywhere else the ferry without any duration. *)
Definition coach_or_ferry (origin destination date : string) : list offer :=
  if String.eqb origin "Paris" then [unscheduled_coach] else [walk_up_ferry].

Definition paris_madrid_by_coach : complete_route :=
  mkRoute ["Paris"; "Madrid"] (0 + (30#1))%Q PosInf
    [mkLeg "Paris" "Madrid" "2025-11-15" unscheduled_coach].

(** The analysis of the scenario. *)
Definition scenario_result : analysis :=
  {| total_options_analyzed := 3;
     options_with_price_count := 3;
     options_with_duration_count := 3;
     cheapest := (0%nat, bus_45);
     fastest := Some (1%nat, flight_120);
     same_option := false;
     discarded :=
       [mkDiscarded 2 train_95
          ["50.00 EUR more expensive than cheapest"; "5h 30m slower than fastest"]] |}.

(** The date reached after [n] successive one-day advances, when each of
    them succeeds. *)
Fixpoint advance_days (next_day : string -> option string) (n : nat) (date : string)
  : option string :=
  match n with
  | O => Some date
  | S n' =>
      match next_day date with
      | Some d => advance_days next_day n' d
      | None => None
      end
  end.

(** [total_price] as the loop accumulates it over the legs. *)
Definition add_leg_price (acc : Q) (l : leg) : Q := (acc + price_of (leg_option l))%Q.

(** A leg search that always finds the train at 10 alone. *)
Definition paid_everywhere (origin destination date : string) : list offer :=
  [paid_train].

(** What the optimiser answers for Paris and Madrid with that search. *)
Definition paid_both_ways : optimization :=
  {| total_routes_analyzed := 2;
     cheapest_route :=
       (0%nat, mkRoute ["Paris"; "Madrid"] (0 + (10#1))%Q (Int 120)
                 [mkLeg "Paris" "Madrid" "2025-11-15" paid_train]);
     fastest_route :=
       (0%nat, mkRoute ["Paris"; "Madrid"] (0 + (10#1))%Q (Int 120)
                 [mkLeg "Paris" "Madrid" "2025-11-15" paid_train]);
     same_route := true;
     discarded_routes :=
       [mkDiscardedRoute 1 ["Madrid"; "Paris"] (0 + (10#1))%Q
          ["Not the cheapest or fastest route order"]] |}.

(** ** [search_all_transport]

    The three search tools are its collaborators: each answers, for an
    origin, a destination and a date, a decoded reply that holds a list
    under ["options"] or has no such entry. *)

(** The sort key [x.get('price') or float('inf')]: the price when it is
    present and not zero, infinity otherwise. *)
Inductive price_key : Type :=
| KeyPrice (p : Q)
| KeyInf.

Definition sort_key (opt : offer) : price_key :=
  match price opt with
  | Some p => if Qeq_bool p 0 then KeyInf else KeyPrice p
  | None => KeyInf
  end.

(** [a < b] on keys, the prices being finite. *)
Definition key_lt (a b : price_key) : bool :=
  match a, b with
  | KeyPrice p, KeyPrice q => Qltb p q
  | KeyPrice _, KeyInf => true
  | KeyInf, _ => false
  end.

(** [list.sort(key=...)] is stable and compares keys with [<] only; on
    keys that [<] orders totally up to ties, a stable sort has one
    possible result, computed here by insertion from the right: an
    element goes before the first one that is not smaller than it. *)
Fixpoint insert_by_price (x : offer) (sorted : list offer) : list offer :=
  match sorted with
  | [] => [x]
  | y :: rest =>
      if key_lt (sort_key y) (sort_key x)
      then y :: insert_by_price x rest
      else x :: y :: rest
  end.

Definition sort_by_price (l : list offer) : list offer :=
  fold_right insert_by_price [] l.

(** [if "options" in data: all_options.extend(data["options"])] *)
Definition extend_with (all_options : list offer) (reply : option (list offer))
  : list offer :=
  match reply with
  | Some options => (all_options ++ options)%list
  | None => all_options
  end.

(** Lines 318-363: the options of the combined reply. *)
Definition search_all_transport
  (search_flights search_trains search_buses :
     string -> string -> string -> option (list offer))
  (origin destination departure_date : string) : list offer :=
  let all_options := [] in
  let all_options := extend_with all_options (search_flights origin destination departure_date) in
  let all_options := extend_with all_options (search_trains origin destination departure_date) in
  let all_options := extend_with all_options (search_buses origin destination departure_date) in
  sort_by_price all_options.

(** A list in which no element is followed by one with a smaller key. *)
Inductive price_sorted : list offer -> Prop :=
| price_sorted_nil : price_sorted []
| price_sorted_cons (x : offer) (l : list offer) :
    Forall (fun y => key_lt (sort_key y) (sort_key x) = false) l ->
    price_sorted l -> price_sorted (x :: l).

(** Two keys neither of which is smaller than the other. *)
Definition key_tie (a b : price_key) : bool :=
  negb (key_lt a b) && negb (key_lt b a).

Definition flights_to_rome (origin destination date : string) : option (list offer) :=
  Some [flight_120; free_shuttle].
Definition trains_to_rome (origin destination date : string) : option (list offer) :=
  None.
Definition buses_to_rome (origin destination date : string) : option (list offer) :=
  Some [bus_45; unpriced_train].

(** ** What the provider clients hand to the engine *)

(** [str(n)] for an int, as an f-string renders it. *)
Definition py_str_int (z : Z) : string :=
  if z <? 0 then "-" ++ string_of_nonneg (- z) else string_of_nonneg z.

(** [f"PT{hours}H{minutes}M"] *)
Definition iso_hours_minutes (hours minutes : Z) : string :=
  "PT" ++ py_str_int hours ++ "H" ++ py_str_int minutes ++ "M".

(** [apis/trains.py], [_parse_sncf_journey]: the entries of the option
    that the engine reads.  The argument is [journey.get('duration')], a
    number of seconds, [None] when the key is missing (then 0 is
    taken).  The price is always [None]. *)
Definition parse_sncf_journey (journey_duration : option Z) : offer :=
  let duration := match journey_duration with Some d => d | None => 0 end in
  let hours := duration / 3600 in
  let minutes := (duration mod 3600) / 60 in
  mkOffer "train" None (Some "EUR") (DurationStr (iso_hours_minutes hours minutes)).

(** [trip.get('price', {})]: a dict with its optional ['total'] and
    ['currency'], or something that is not a dict.  A missing key gives
    the empty dict. *)
Inductive trip_price : Type :=
| PriceNotDict
| PriceDict (total : option Q) (currency_code : option string).

(** [trip.get('duration', {})]: a dict with its optional ['hours'] and
    ['minutes'], or something that is not a dict. *)
Inductive trip_duration : Type :=
| DurationNotDict
| DurationDict (hours minutes : option Z).

(** [apis/buses.py], [_parse_trip]: the entries of the option that the
    engine reads. *)
Definition parse_trip (price_info : trip_price) (duration_info : trip_duration) : offer :=
  let trip_total :=
    match price_info with
    | PriceDict (Some t) _ => t
    | _ => 0%Q
    end in
  let trip_currency :=
    match price_info with
    | PriceDict _ (Some c) => c
    | _ => "EUR"
    end in
  let duration_str :=
    match duration_info with
    | DurationDict h m =>
        iso_hours_minutes (match h with Some x => x | None => 0 end)
                          (match m with Some x => x | None => 0 end)
    | DurationNotDict => "PT0H0M"
    end in
  mkOffer "bus" (Some trip_total) (Some trip_currency) (DurationStr duration_str).

(** ** [get_city_iata_code] and its cache ([apis/amadeus.py]) *)

(** [c.upper()] on ASCII letters. *)
Definition upper_ascii (c : ascii) : ascii :=
  let n := nat_of_ascii c in
  if (97 <=? n)%nat && (n <=? 122)%nat then ascii_of_nat (n - 32) else c.

(** [s.upper()] *)
Fixpoint upper (s : string) : string :=
  match s with
  | EmptyString => EmptyString
  | String c r => String (upper_ascii c) (upper r)
  end.

(** The class-level dict [_iata_cache], from upper-cased names to a code
    or [None]: an association list read from its newest binding. *)
Definition iata_cache : Type := list (string * option string).

(** [cache[key]] when [key in cache]. *)
Fixpoint cache_get (cache : iata_cache) (key : string) : option (option string) :=
  match cache with
  | [] => None
  | (k, v) :: rest => if String.eqb k key then Some v else cache_get rest key
  end.

(** [cache[key] = v] *)
Definition cache_set (cache : iata_cache) (key : string) (v : option string) : iata_cache :=
  (key, v) :: cache.

(** One entry of [response.data], with the two fields the lookup reads:
    each is the string under its key, or [None] when the entry has no
    such key. *)
Record location : Type := mkLocation {
  subType : option string;
  iataCode : option string
}.

(** What the locations request gives: the data of the response (the
    empty list for a response without data), a ResponseError with
    status 429, or another ResponseError.  The wait of [_rate_limit]
    before the request changes no value and is left out. *)
Inductive locations_reply : Type :=
| LocationsData (data : list location)
| RateLimited
| OtherResponseError.

(** What the lookup gives back: its return value, or the KeyError of
    [location['iataCode']] on an entry without a code, which it does not
    catch. *)
Inductive lookup_result : Type :=
| Code (code : option string)
| KeyErrorRaised.

(** [location.get('subType') == 'CITY'] *)
Definition is_city (l : location) : bool :=
  match subType l with
  | Some t => String.eqb t "CITY"
  | None => false
  end.

(** The loop over [response.data]: the first CITY entry, if any, and
    its code, if it has one. *)
Fixpoint first_city (data : list location) : option (option string) :=
  match data with
  | [] => None
  | l :: rest => if is_city l then Some (iataCode l) else first_city rest
  end.

(** The fallback table of the handler. *)
Definition common_codes (cache_key : string) : option string :=
  if String.eqb cache_key "PARIS" then Some "PAR"
  else if String.eqb cache_key "LONDON" then Some "LON"
  else if String.eqb cache_key "BERLIN" then Some "BER"
  else if String.eqb cache_key "MADRID" then Some "MAD"
  else if String.eqb cache_key "ROME" then Some "ROM"
  else if String.eqb cache_key "DUBLIN" then Some "DUB"
  else if String.eqb cache_key "AMSTERDAM" then Some "AMS"
  else if String.eqb cache_key "BARCELONA" then Some "BCN"
  else if String.eqb cache_key "MUNICH" then Some "MUC"
  else if String.eqb cache_key "VIENNA" then Some "VIE"
  else if String.eqb cache_key "PRAGUE" then Some "PRG"
  else if String.eqb cache_key "BUDAPEST" then Some "BUD"
  else if String.eqb cache_key "LISBON" then Some "LIS"
  else if String.eqb cache_key "BRUSSELS" then Some "BRU"
  else if String.eqb cache_key "COPENHAGEN" then Some "CPH"
  else if String.eqb cache_key "STOCKHOLM" then Some "STO"
  else if String.eqb cache_key "OSLO" then Some "OSL"
  else if String.eqb cache_key "ATHENS" then Some "ATH"
  else None.

(** [get_city_iata_code]: the cache is threaded through; [client] is
    the locations request, made with the name as typed and only on a
    cache miss. *)
Definition get_city_iata_code (cache : iata_cache) (client : string -> locations_reply)
  (city_name : string) : lookup_result * iata_cache :=
  let cache_key := upper city_name in
  match cache_get cache cache_key with
  | Some cached_code => (Code cached_code, cache)
  | None =>
      match client city_name with
      | LocationsData [] => (Code None, cache_set cache cache_key None)
      | LocationsData (first :: others) =>
          match first_city (first :: others) with
          | Some (Some code) => (Code (Some code), cache_set cache cache_key (Some code))
          | Some None => (KeyErrorRaised, cache)
          | None =>
              match iataCode first with
              | Some code => (Code (Some code), cache_set cache cache_key (Some code))
              | None => (KeyErrorRaised, cache)
              end
          end
      | RateLimited => (Code None, cache)
      | OtherResponseError =>
          match common_codes cache_key with
          | Some code => (Code (Some code), cache_set cache cache_key (Some code))
          | None => (Code None, cache_set cache cache_key None)
          end
      end
  end.

(** Requests for the examples. *)
Definition knows_nothing (keyword : string) : locations_reply := LocationsData [].
Definition knows_lyon (keyword : string) : locations_reply :=
  LocationsData [mkLocation (Some "AIRPORT") (Some "LYS"); mkLocation (Some "CITY") (Some "LYO")].
Definition too_many_requests (keyword : string) : locations_reply := RateLimited.

(** ** Vocabulary of the parser's prefix reading *)

(** The text begins with a digit. *)
Definition leading_digit (s : string) : bool :=
  match s with
  | String c _ => is_digit c
  | EmptyString => false
  end.

(** The number of digits a group holds. *)
Definition group_digits (g : option string) : nat :=
  match g with
  | Some ds => String.length ds
  | None => 0%nat
  end.

Definition mistyped_bus : offer :=
  mkOffer "bus" (Some (20#1)) (Some "EUR") (DurationStr "PTgarbage").

(** ** Vocabulary of the route totals *)

(** [best_leg.get('duration', 'PT0M')] for a chosen option whose
    duration is not [null]: the string it holds, ["PT0M"] when it has no
    duration entry. *)
Definition duration_or_PT0M (opt : offer) : string :=
  match duration opt with
  | DurationStr s => s
  | _ => "PT0M"
  end.

(** Paris, Madrid, Berlin with the train at 10 on both legs. *)
Definition paris_madrid_berlin_by_train : complete_route :=
  mkRoute ["Paris"; "Madrid"; "Berlin"] (0 + (10#1) + (10#1))%Q (Int 240)
    [mkLeg "Paris" "Madrid" "2025-11-15" paid_train;
     mkLeg "Madrid" "Berlin" "2025-11-16" paid_train].

(** * Properties *)

(** ** Runs of the model *)

Example parse_PT2H30M : parse_iso_duration_to_minutes "PT2H30M" = Int 150.
Proof. reflexivity. Qed.

Example parse_garbage : parse_iso_duration_to_minutes "garbage" = PosInf.
Proof. reflexivity. Qed.

Example parse_PT30M : parse_iso_duration_to_minutes "PT30M" = Int 30.
Proof. reflexivity. Qed.

Example parse_PT12H5 : parse_iso_duration_to_minutes "PT12H5" = Int 720.
Proof. reflexivity. Qed.

Example parse_PT5M3H : parse_iso_duration_to_minutes "PT5M3H" = Int 5.
Proof. reflexivity. Qed.

Example scenario_analysis :
  analyze_best_routes (Options [bus_45; flight_120; train_95]) =
  Analysis {|
    total_options_analyzed := 3;
    options_with_price_count := 3;
    options_with_duration_count := 3;
    cheapest := (0%nat, bus_45);
    fastest := Some (1%nat, flight_120);
    same_option := false;
    discarded :=
      [mkDiscarded 2 train_95
         ["50.00 EUR more expensive than cheapest"; "5h 30m slower than fastest"]]
  |}.
Proof. vm_compute. reflexivity. Qed.

(** With one route of infinite total among the complete routes and a
    faster one selected, the ranking loop raises while it words the
    reasons of the former. *)
Example infinite_total_in_ranking :
  optimize_multi_city_route coach_or_ferry mid_november
    (Cities ["Paris"; "Madrid"]) "2025-11-15" = RouteOptimizationFailed ValueError.
Proof. vm_compute. reflexivity. Qed.

Example permutations_abc :
  permutations ["a"; "b"; "c"] =
  [["a"; "b"; "c"]; ["a"; "c"; "b"]; ["b"; "a"; "c"];
   ["b"; "c"; "a"]; ["c"; "a"; "b"]; ["c"; "b"; "a"]].
Proof. reflexivity. Qed.

(** ** The duration parser *)

Lemma span_digits_stop (ds : string) (c : ascii) (rest : string) :
  all_digits ds = true -> is_digit c = false ->
  span_digits (ds ++ String c rest) = (ds, String c rest).
Proof.
  intros Hds Hc. induction ds as [|d ds IH]; simpl in *.
  - now rewrite Hc.
  - apply andb_true_iff in Hds as [Hd Hds]. rewrite Hd, (IH Hds). reflexivity.
Qed.

Lemma span_digits_end (ds : string) :
  all_digits ds = true -> span_digits ds = (ds, EmptyString).
Proof.
  intros Hds. induction ds as [|d ds IH]; simpl in *.
  - reflexivity.
  - apply andb_true_iff in Hds as [Hd Hds]. rewrite Hd, (IH Hds). reflexivity.
Qed.

Lemma match_group_present (letter : ascii) (ds rest : string) :
  digits ds = true -> is_digit letter = false ->
  match_group letter (ds ++ String letter rest) = (Some ds, rest).
Proof.
  intros Hds Hl. unfold match_group.
  destruct ds as [|d ds]; [discriminate|].
  rewrite span_digits_stop by assumption.
  now rewrite Ascii.eqb_refl.
Qed.

Lemma match_group_other (letter other : ascii) (ds rest : string) :
  all_digits ds = true -> is_digit other = false -> Ascii.eqb other letter = false ->
  match_group letter (ds ++ String other rest) = (None, ds ++ String other rest).
Proof.
  intros Hds Ho Hne. unfold match_group.
  rewrite span_digits_stop by assumption.
  destruct ds; [reflexivity|]. now rewrite Hne.
Qed.

Lemma append_letter (a : string) (c : ascii) (r : string) :
  (a ++ String c "") ++ r = a ++ String c r.
Proof. induction a as [|x a IH]; simpl; [reflexivity | now rewrite IH]. Qed.

Lemma parse_grammar (h m : option string) :
  group_ok h = true -> group_ok m = true ->
  parse_iso_duration_to_minutes (duration_text h m)
  = Int (group_value h * 60 + group_value m).
Proof.
  intros Hh Hm. unfold parse_iso_duration_to_minutes, duration_text, re_match.
  cbn [append].
  destruct h as [hs|], m as [ms|]; cbn [group_text group_ok group_value] in *.
  - rewrite append_letter.
    rewrite match_group_present by (assumption || reflexivity).
    rewrite match_group_present by (assumption || reflexivity).
    reflexivity.
  - rewrite append_letter.
    rewrite match_group_present by (assumption || reflexivity).
    reflexivity.
  - cbn [append].
    rewrite match_group_other; try reflexivity.
    + rewrite match_group_present by (assumption || reflexivity). reflexivity.
    + destruct ms; [discriminate | exact Hm].
  - reflexivity.
Qed.

Lemma int_of_digits_from_nonneg (ds : string) (acc : Z) :
  all_digits ds = true -> 0 <= acc -> 0 <= int_of_digits_from acc ds.
Proof.
  revert acc.
  induction ds as [|d ds IH]; intros acc Hds Hacc;
    cbn [int_of_digits_from all_digits] in *.
  - exact Hacc.
  - apply andb_true_iff in Hds as [Hd Hds]. apply IH; [assumption|].
    unfold is_digit in Hd. apply andb_true_iff in Hd as [Hlo _].
    apply Nat.leb_le in Hlo. unfold digit_value. lia.
Qed.

Lemma span_digits_all_digits (s : string) : all_digits (fst (span_digits s)) = true.
Proof.
  induction s as [|c s IH]; simpl; [reflexivity|].
  destruct (is_digit c) eqn:Hc; [|reflexivity].
  destruct (span_digits s) as [ds rest]. simpl in *. now rewrite Hc.
Qed.

Lemma match_group_value_nonneg (letter : ascii) (s : string) :
  0 <= group_value (fst (match_group letter s)).
Proof.
  unfold match_group.
  pose proof (span_digits_all_digits s) as Hall.
  destruct (span_digits s) as [ds rest]. simpl in Hall.
  destruct ds as [|d ds]; [simpl; lia|].
  destruct rest as [|c rest]; [simpl; lia|].
  destruct (Ascii.eqb c letter); [|simpl; lia].
  simpl fst. unfold group_value, int_of_digits.
  apply int_of_digits_from_nonneg; [exact Hall | lia].
Qed.

(** The parser answers [inf] exactly for the strings that do not start
    with ["PT"], and a non-negative int for the others. *)
Lemma parse_cases (s : string) :
  (starts_with_PT s = false /\ parse_iso_duration_to_minutes s = PosInf) \/
  (starts_with_PT s = true /\ exists n, 0 <= n /\ parse_iso_duration_to_minutes s = Int n).
Proof.
  unfold parse_iso_duration_to_minutes, re_match, starts_with_PT.
  destruct s as [|c1 [|c2 s]]; try (left; split; reflexivity).
  { left. destruct c1 as [[] [] [] [] [] [] [] []]; split; reflexivity. }
  destruct c1 as [[] [] [] [] [] [] [] []]; try (left; split; reflexivity).
  destruct c2 as [[] [] [] [] [] [] [] []]; try (left; split; reflexivity).
  right. split; [reflexivity|].
  pose proof (match_group_value_nonneg "H" s) as Hh.
  destruct (match_group "H" s) as [h r1].
  pose proof (match_group_value_nonneg "M" r1) as Hm.
  destruct (match_group "M" r1) as [m r2]. simpl in Hh, Hm.
  eexists. split; [|reflexivity].
  unfold group_value in *. destruct h, m; lia.
Qed.

Lemma digits_head (ds r : string) (c : ascii) (r' : string) :
  digits ds = true -> ds ++ r = String c r' -> is_digit c = true.
Proof.
  intros Hds E. destruct ds as [|d ds]; [discriminate|].
  simpl in *. injection E as -> _.
  now apply andb_true_iff in Hds as [Hd _].
Qed.

Lemma append_assoc3 (a b c : string) : (a ++ b) ++ c = a ++ (b ++ c).
Proof. induction a as [|x a IH]; simpl; [reflexivity | now rewrite IH]. Qed.

Lemma match_group_no_digit (letter : ascii) (s : string) :
  leading_digit s = false -> match_group letter s = (None, s).
Proof.
  intros H. unfold match_group. destruct s as [|c r]; [reflexivity|].
  simpl in *. now rewrite H.
Qed.

Lemma not_grammar_PTgarbage : ~ duration_grammar "PTgarbage".
Proof.
  intros (h & m & Hh & Hm & E).
  unfold duration_text in E. cbn [append] in E.
  injection E as E.
  destruct h as [hs|]; cbn [group_text group_ok] in *.
  - destruct hs as [|d hs]; [discriminate|].
    cbn [append] in E. injection E as Hd _. subst d. discriminate Hh.
  - destruct m as [ms|]; cbn [group_text group_ok append] in *; [|discriminate].
    symmetry in E. apply (digits_head _ _ _ _ Hm) in E. discriminate.
Qed.

(** C2: the parser reads a duration at the head of the string and does
    not look at what follows.  For digit groups within the length
    [int()] converts (4300 digits, the default limit of CPython 3.11 and
    later), a text of the expected grammar parses to hours * 60 +
    minutes (["PT2H30M"] gives 150), and so does that text followed
    by anything that does not continue it: any text at all after a
    minutes group, any text that does not begin with a digit otherwise.
    Infinity is returned exactly for the strings that do not begin with
    ["PT"] (["garbage"]).  So ["PTgarbage"], which is not of the grammar,
    parses to 0 and not to infinity, and an option with that duration
    is the fastest of a list in which every well-formed duration is
    longer. *)
Theorem parse_reads_duration_prefix (h m : option string) (tail s : string) :
  group_ok h = true -> group_ok m = true ->
  (group_digits h <= 4300)%nat -> (group_digits m <= 4300)%nat ->
  m <> None \/ leading_digit tail = false ->
  parse_iso_duration_to_minutes (duration_text h m)
    = Int (group_value h * 60 + group_value m) /\
  parse_iso_duration_to_minutes (duration_text h m ++ tail)
    = Int (group_value h * 60 + group_value m) /\
  (parse_iso_duration_to_minutes s = PosInf <-> starts_with_PT s = false) /\
  parse_iso_duration_to_minutes "PT2H30M" = Int 150 /\
  parse_iso_duration_to_minutes "garbage" = PosInf /\
  ~ duration_grammar "PTgarbage" /\
  parse_iso_duration_to_minutes "PTgarbage" = Int 0 /\
  select_fastest [hourly_train; mistyped_bus] = Some (1%nat, mistyped_bus).
Proof.
  intros Hh Hm _ _ Htail.
  split; [now apply parse_grammar|].
  split.
  { unfold parse_iso_duration_to_minutes, duration_text, re_match.
    rewrite !append_assoc3. cbn [append].
    destruct h as [hs|], m as [ms|]; cbn [group_text group_ok group_value] in *.
    - rewrite !append_assoc3. cbn [append].
      rewrite match_group_present by (assumption || reflexivity).
      rewrite match_group_present by (assumption || reflexivity).
      reflexivity.
    - destruct Htail as [Hm'|Htail]; [congruence|].
      rewrite !append_assoc3. cbn [append].
      rewrite match_group_present by (assumption || reflexivity).
      rewrite match_group_no_digit by exact Htail. reflexivity.
    - rewrite !append_assoc3. cbn [append].
      rewrite match_group_other; try reflexivity.
      + rewrite match_group_present by (assumption || reflexivity). reflexivity.
      + destruct ms; [discriminate | exact Hm].
    - destruct Htail as [Hm'|Htail]; [congruence|]. cbn [append].
      rewrite !match_group_no_digit by exact Htail. reflexivity. }
  split.
  { destruct (parse_cases s) as [[Hp Hv]|[Hp (n & _ & Hv)]]; rewrite Hp, Hv;
      split; intro; (reflexivity || discriminate). }
  split; [reflexivity|]. split; [reflexivity|].
  split; [exact not_grammar_PTgarbage|].
  split; [reflexivity | vm_compute; reflexivity].
Qed.

Lemma parse_reads_duration_prefix_witness :
  parse_iso_duration_to_minutes "PT5Hxyz" = Int 300 /\
  parse_iso_duration_to_minutes "PT2H30M45" = Int 150.
Proof.
  split.
  - apply (parse_reads_duration_prefix (Some "5") None "xyz" "");
      try reflexivity; try (simpl; lia). now right.
  - apply (parse_reads_duration_prefix (Some "2") (Some "30") "45" "");
      try reflexivity; try (simpl; lia). left. discriminate.
Defined.

(** ** The analyser: structural failures *)

(** C7: without an option list, or with an empty one, the analyser
    answers the "no options provided" error object; with a non-empty list
    in which no option has a price it answers the distinct "no options
    with valid prices" error object.  Both are returned values, not
    exceptions. *)
Theorem analyze_structural_errors (options : list offer) :
  options <> [] ->
  forallb (fun opt => negb (has_price opt)) options = true ->
  analyze_best_routes OptionsMissing = NoOptionsProvided /\
  analyze_best_routes (Options []) = NoOptionsProvided /\
  analyze_best_routes (Options options) = NoOptionsWithValidPrices /\
  NoOptionsProvided <> NoOptionsWithValidPrices.
Proof.
  intros Hne Hnone.
  split; [reflexivity|]. split; [reflexivity|]. split; [|discriminate].
  assert (Hfilter : forall i, filter (fun io : nat * offer => has_price (snd io))
                                (enumerate_from i options) = []).
  { clear Hne. induction options as [|o os IH]; intros i; simpl in *; [reflexivity|].
    apply andb_true_iff in Hnone as [Ho Hos].
    apply negb_true_iff in Ho. rewrite Ho. now apply IH. }
  destruct options as [|o os]; [congruence|].
  unfold analyze_best_routes, select_cheapest, options_with_price, enumerate.
  now rewrite Hfilter.
Qed.

Lemma analyze_structural_errors_witness :
  analyze_best_routes (Options [unpriced_train; unpriced_train]) = NoOptionsWithValidPrices.
Proof.
  apply (analyze_structural_errors [unpriced_train; unpriced_train]);
    [discriminate | reflexivity].
Defined.

(** ** [min] with a key: the first minimal element *)

Section MinLoop.
Context {A K : Type} (key : A -> K) (lt : K -> K -> bool) (P : A -> Prop).

Hypothesis lt_trans : forall a b c, P a -> P b -> P c ->
  lt (key a) (key b) = true -> lt (key b) (key c) = true -> lt (key a) (key c) = true.
Hypothesis lt_below : forall a b c, P a -> P b -> P c ->
  lt (key a) (key b) = true -> lt (key c) (key b) = false -> lt (key a) (key c) = true.

Lemma min_loop_split (l : list A) : forall (pre : list A) (b : A) (post : list A),
  P b -> Forall P pre -> Forall P post -> Forall P l ->
  Forall (fun x => lt (key b) (key x) = true) pre ->
  Forall (fun x => lt (key x) (key b) = false) post ->
  exists l1 l2,
    (pre ++ b :: post ++ l)%list = (l1 ++ min_loop key lt b l :: l2)%list /\
    P (min_loop key lt b l) /\
    Forall (fun x => lt (key (min_loop key lt b l)) (key x) = true) l1 /\
    Forall (fun x => lt (key x) (key (min_loop key lt b l)) = false) l2.
Proof.
  induction l as [|x l IH]; intros pre b post Pb Ppre Ppost Pl Hpre Hpost.
  - exists pre, post. rewrite app_nil_r. simpl. auto.
  - apply Forall_cons_iff in Pl as [Px Pl]. simpl.
    destruct (lt (key x) (key b)) eqn:Hxb.
    + destruct (IH (pre ++ b :: post)%list x [] Px) as (l1 & l2 & E & H).
      * apply Forall_app. split; [assumption | now constructor].
      * constructor.
      * assumption.
      * apply Forall_app. split; [|constructor; [assumption|]].
        -- rewrite Forall_forall in *. intros y Hy.
           apply (lt_trans x b y); auto.
        -- rewrite Forall_forall in *. intros y Hy.
           apply (lt_below x b y); auto.
      * constructor.
      * exists l1, l2. split; [|exact H].
        rewrite <- E. rewrite <- app_assoc. reflexivity.
    + destruct (IH pre b (post ++ [x])%list Pb) as (l1 & l2 & E & H).
      * assumption.
      * apply Forall_app. split; [assumption | now constructor].
      * assumption.
      * assumption.
      * apply Forall_app. split; [assumption | now constructor].
      * exists l1, l2. split; [|exact H].
        rewrite <- E. rewrite <- app_assoc. reflexivity.
Qed.

(** [min] returns an element of the list; every element before it has a
    strictly larger key and no element after it has a smaller one. *)
Lemma py_min_first (l : list A) :
  Forall P l -> l <> [] ->
  exists l1 m l2,
    py_min key lt l = Some m /\ l = (l1 ++ m :: l2)%list /\ P m /\
    Forall (fun x => lt (key m) (key x) = true) l1 /\
    Forall (fun x => lt (key x) (key m) = false) l2.
Proof.
  intros Pl Hne. destruct l as [|b l]; [congruence|].
  apply Forall_cons_iff in Pl as [Pb Pl].
  destruct (min_loop_split l [] b [] Pb) as (l1 & l2 & E & H); auto.
  exists l1, (min_loop key lt b l), l2. simpl in *. auto.
Qed.
End MinLoop.

(** ** Positions *)

Lemma in_enumerate_from {A : Type} (l : list A) : forall (k i : nat) (x : A),
  In (i, x) (enumerate_from k l) <-> (k <= i)%nat /\ nth_error l (i - k) = Some x.
Proof.
  induction l as [|y l IH]; intros k i x; simpl.
  - split; [tauto|]. intros [_ H]. destruct (i - k)%nat; discriminate.
  - rewrite IH. split.
    + intros [E|[Hk Hn]].
      * injection E as <- <-. rewrite Nat.sub_diag. split; [lia | reflexivity].
      * split; [lia|]. replace (i - k)%nat with (S (i - S k)) by lia. exact Hn.
    + intros [Hk Hn]. destruct (Nat.eq_dec i k) as [->|Hik].
      * rewrite Nat.sub_diag in Hn. simpl in Hn. left. congruence.
      * right. split; [lia|].
        replace (i - k)%nat with (S (i - S k)) in Hn by lia. exact Hn.
Qed.

Lemma in_enumerate {A : Type} (l : list A) (i : nat) (x : A) :
  In (i, x) (enumerate l) <-> nth_error l i = Some x.
Proof.
  unfold enumerate. rewrite in_enumerate_from, Nat.sub_0_r.
  split; [tauto | split; [lia | assumption]].
Qed.

Lemma ascending_enumerate_from {A : Type} (l : list A) : forall k,
  ascending (enumerate_from k l) /\
  Forall (fun y => (k <= fst y)%nat) (enumerate_from k l).
Proof.
  induction l as [|x l IH]; intros k; simpl.
  - split; constructor.
  - destruct (IH (S k)) as [Hasc Hge]. split.
    + constructor; [|assumption].
      eapply Forall_impl; [|exact Hge]. simpl. intros; lia.
    + constructor; [simpl; lia|].
      eapply Forall_impl; [|exact Hge]. simpl. intros; lia.
Qed.

Lemma ascending_filter {A : Type} (f : nat * A -> bool) (l : list (nat * A)) :
  ascending l -> ascending (filter f l).
Proof.
  induction 1 as [|x l Hx Hl IH]; simpl; [constructor|].
  destruct (f x); [|assumption].
  constructor; [|assumption].
  rewrite Forall_forall in *. intros y Hy. apply Hx.
  apply filter_In in Hy. tauto.
Qed.

Lemma ascending_split {A : Type} (l1 : list (nat * A)) (m : nat * A) (l2 : list (nat * A)) :
  ascending (l1 ++ m :: l2) ->
  Forall (fun y => (fst y < fst m)%nat) l1 /\ Forall (fun y => (fst m < fst y)%nat) l2.
Proof.
  induction l1 as [|x l1 IH]; simpl; intros H; inversion H as [|? ? Hx Hl]; subst.
  - split; [constructor | assumption].
  - destruct (IH Hl) as [H1 H2]. split; [|assumption].
    constructor; [|assumption].
    rewrite Forall_forall in Hx. apply Hx. apply in_or_app. right. now left.
Qed.

(** ** Order facts for the two keys *)

Lemma Qltb_lt (a b : Q) : Qltb a b = true <-> (a < b)%Q.
Proof.
  unfold Qltb. rewrite negb_true_iff.
  destruct (Qle_bool b a) eqn:E.
  - apply Qle_bool_iff in E. split; [discriminate|]. intros H.
    exfalso. exact (Qlt_not_le _ _ H E).
  - split; [|reflexivity]. intros _. apply Qnot_le_lt. intros H.
    apply Qle_bool_iff in H. congruence.
Qed.

Lemma Qltb_ge (a b : Q) : Qltb a b = false <-> (b <= a)%Q.
Proof.
  unfold Qltb. rewrite negb_false_iff. apply Qle_bool_iff.
Qed.

(** ** Selection of the cheapest *)

Lemma select_cheapest_spec (options : list offer) :
  (exists o, In o options /\ has_price o = true) ->
  exists i o p,
    select_cheapest options = Some (i, o) /\
    nth_error options i = Some o /\
    price o = Some p /\
    (forall j o' p', nth_error options j = Some o' -> price o' = Some p' ->
                     (p <= p')%Q) /\
    (forall j o' p', nth_error options j = Some o' -> price o' = Some p' ->
                     (j < i)%nat -> (p < p')%Q).
Proof.
  intros (o0 & Hin0 & Hp0).
  destruct (In_nth_error _ _ Hin0) as [i0 Hi0].
  assert (Hne : options_with_price options <> []).
  { intros E. apply in_enumerate in Hi0.
    assert (Hin : In (i0, o0) (options_with_price options))
      by (apply filter_In; split; assumption).
    rewrite E in Hin. exact Hin. }
  destruct (py_min_first (fun io : nat * offer => price_of (snd io)) Qltb
              (fun _ => True)) with (l := options_with_price options)
    as (l1 & [i o] & l2 & Hmin & Hsplit & _ & Hbefore & Hafter).
  - intros a b c _ _ _ Hab Hbc. apply Qltb_lt in Hab, Hbc. apply Qltb_lt.
    eapply Qlt_trans; eassumption.
  - intros a b c _ _ _ Hab Hcb. apply Qltb_lt in Hab. apply Qltb_ge in Hcb.
    apply Qltb_lt. eapply Qlt_le_trans; eassumption.
  - apply Forall_forall. intros; exact I.
  - exact Hne.
  - assert (Hm : In (i, o) (options_with_price options))
      by (rewrite Hsplit; apply in_or_app; right; now left).
    apply filter_In in Hm as [Hm Hpm]. apply in_enumerate in Hm.
    simpl in Hpm. unfold has_price in Hpm.
    destruct (price o) as [p|] eqn:Hprice; [|discriminate].
    assert (Hasc : ascending (l1 ++ (i, o) :: l2)).
    { rewrite <- Hsplit. apply ascending_filter.
      apply (ascending_enumerate_from options 0%nat). }
    apply ascending_split in Hasc as [Hlow Hhigh].
    assert (Hkey : forall j o' p', nth_error options j = Some o' ->
                     price o' = Some p' ->
                     (In (j, o') l1 /\ (p < p')%Q /\ (j < i)%nat) \/
                     (j = i) \/
                     (In (j, o') l2 /\ (p <= p')%Q /\ (i < j)%nat)).
    { intros j o' p' Hj Hp'.
      assert (Hin : In (j, o') (options_with_price options)).
      { apply filter_In. split; [now apply in_enumerate|].
        simpl. unfold has_price. now rewrite Hp'. }
      rewrite Hsplit in Hin. apply in_app_or in Hin as [Hin|[E|Hin]].
      - left. split; [assumption|]. split.
        + rewrite Forall_forall in Hbefore. specialize (Hbefore _ Hin).
          simpl in Hbefore. unfold price_of in Hbefore.
          rewrite Hprice, Hp' in Hbefore. now apply Qltb_lt.
        + rewrite Forall_forall in Hlow. exact (Hlow _ Hin).
      - right; left. congruence.
      - right; right. split; [assumption|]. split.
        + rewrite Forall_forall in Hafter. specialize (Hafter _ Hin).
          simpl in Hafter. unfold price_of in Hafter.
          rewrite Hprice, Hp' in Hafter. now apply Qltb_ge.
        + rewrite Forall_forall in Hhigh. exact (Hhigh _ Hin). }
    exists i, o, p. unfold select_cheapest.
    split; [exact Hmin|]. split; [exact Hm|]. split; [exact Hprice|]. split.
    + intros j o' p' Hj Hp'.
      destruct (Hkey j o' p' Hj Hp') as [(_ & H & _)|[E|(_ & H & _)]].
      * now apply Qlt_le_weak.
      * subst j. assert (p' = p) by congruence. subst. apply Qle_refl.
      * exact H.
    + intros j o' p' Hj Hp' Hlt.
      destruct (Hkey j o' p' Hj Hp') as [(_ & H & _)|[E|(_ & _ & H)]];
        [exact H | lia | lia].
Qed.

(** An analysis that is returned reports the selections of lines 554
    and 564. *)
Lemma analysis_reports_selection (options : list offer) (a : analysis) :
  analyze_best_routes (Options options) = Analysis a ->
  select_cheapest options = Some (cheapest a) /\
  fastest a = select_fastest options.
Proof.
  unfold analyze_best_routes. destruct options as [|o os]; [discriminate|].
  destruct (select_cheapest (o :: os)) as [sel|]; [|discriminate].
  unfold analyze_options.
  destruct (build_discarded _ _ _ _); simpl; [|discriminate].
  intros E. injection E as <-. simpl. auto.
Qed.

(** ** Selection of the fastest *)

Lemma parses_to_has_duration (opt : offer) (z : Z) :
  parses_to opt z <-> has_duration opt = true /\ minutes_of opt = Int z.
Proof.
  unfold parses_to, has_duration, minutes_of, truthy_duration. split.
  - intros (s & Hd & Hp). rewrite Hd.
    destruct (String.eqb s "") eqn:E.
    + apply String.eqb_eq in E. subst s. discriminate.
    + rewrite Hp. split; reflexivity.
  - destruct (duration opt) as [| |s]; try (intros [H _]; discriminate).
    destruct (String.eqb s ""); [intros [H _]; discriminate|].
    intros [_ H]. exists s. split; [reflexivity | exact H].
Qed.

Lemma has_duration_parses (opt : offer) :
  has_duration opt = true -> exists z, 0 <= z /\ parses_to opt z.
Proof.
  intros H. unfold has_duration, truthy_duration in H.
  destruct (duration opt) as [| |s] eqn:Hd; try discriminate.
  destruct (String.eqb s ""); [discriminate|].
  destruct (parse_cases s) as [[_ Hv]|[_ (n & Hn & Hv)]].
  - rewrite Hv in H. discriminate.
  - exists n. split; [exact Hn|]. exists s. split; [exact Hd | exact Hv].
Qed.

Lemma select_fastest_none (options : list offer) :
  (forall o, In o options -> has_duration o = false) ->
  select_fastest options = None.
Proof.
  intros Hnone. unfold select_fastest.
  assert (E : options_with_duration options = []).
  { destruct (options_with_duration options) as [|[i o] l] eqn:E; [reflexivity|].
    assert (Hin : In (i, o) (options_with_duration options)) by (rewrite E; now left).
    apply filter_In in Hin as [Hin Hd]. apply in_enumerate in Hin.
    apply nth_error_In in Hin. simpl in Hd. rewrite (Hnone o Hin) in Hd. discriminate. }
  now rewrite E.
Qed.

Lemma select_fastest_spec (options : list offer) :
  (exists o, In o options /\ has_duration o = true) ->
  exists i o z,
    select_fastest options = Some (i, o) /\
    nth_error options i = Some o /\
    parses_to o z /\
    (forall j o' z', nth_error options j = Some o' -> parses_to o' z' -> z <= z') /\
    (forall j o' z', nth_error options j = Some o' -> parses_to o' z' ->
                     (j < i)%nat -> z < z').
Proof.
  intros (o0 & Hin0 & Hd0).
  destruct (In_nth_error _ _ Hin0) as [i0 Hi0].
  assert (Hne : options_with_duration options <> []).
  { intros E. apply in_enumerate in Hi0.
    assert (Hin : In (i0, o0) (options_with_duration options))
      by (apply filter_In; split; assumption).
    rewrite E in Hin. exact Hin. }
  assert (Hint : forall a : nat * offer, has_duration (snd a) = true ->
                   exists z, minutes_of (snd a) = Int z).
  { intros a Ha. destruct (has_duration_parses _ Ha) as (z & _ & Hz).
    apply parses_to_has_duration in Hz as [_ Hz]. now exists z. }
  destruct (py_min_first (fun io : nat * offer => minutes_of (snd io)) num_lt
              (fun io => has_duration (snd io) = true))
    with (l := options_with_duration options)
    as (l1 & [i o] & l2 & Hmin & Hsplit & Pm & Hbefore & Hafter).
  - intros a b c Pa Pb Pc.
    destruct (Hint a Pa) as [x ->], (Hint b Pb) as [y ->], (Hint c Pc) as [w ->].
    simpl. rewrite !Z.ltb_lt. lia.
  - intros a b c Pa Pb Pc.
    destruct (Hint a Pa) as [x ->], (Hint b Pb) as [y ->], (Hint c Pc) as [w ->].
    simpl. rewrite !Z.ltb_lt, Z.ltb_ge. lia.
  - apply Forall_forall. intros x Hx. apply filter_In in Hx. tauto.
  - exact Hne.
  - assert (Hm : In (i, o) (options_with_duration options))
      by (rewrite Hsplit; apply in_or_app; right; now left).
    apply filter_In in Hm as [Hm _]. apply in_enumerate in Hm.
    simpl in Pm. destruct (has_duration_parses _ Pm) as (z & _ & Hz).
    pose proof Hz as Hz'. apply parses_to_has_duration in Hz' as [_ Hmz].
    assert (Hasc : ascending (l1 ++ (i, o) :: l2)).
    { rewrite <- Hsplit. apply ascending_filter.
      apply (ascending_enumerate_from options 0%nat). }
    apply ascending_split in Hasc as [Hlow Hhigh].
    assert (Hkey : forall j o' z', nth_error options j = Some o' ->
                     parses_to o' z' ->
                     (z < z' /\ (j < i)%nat) \/ (j = i /\ z' = z) \/
                     (z <= z' /\ (i < j)%nat)).
    { intros j o' z' Hj Hp'.
      apply parses_to_has_duration in Hp' as [Hd' Hm'].
      assert (Hin : In (j, o') (options_with_duration options)).
      { apply filter_In. split; [now apply in_enumerate | exact Hd']. }
      rewrite Hsplit in Hin. apply in_app_or in Hin as [Hin|[E|Hin]].
      - left. split.
        + rewrite Forall_forall in Hbefore. specialize (Hbefore _ Hin).
          simpl in Hbefore. rewrite Hmz, Hm' in Hbefore. simpl in Hbefore.
          now apply Z.ltb_lt.
        + rewrite Forall_forall in Hlow. exact (Hlow _ Hin).
      - right; left. injection E as -> ->. split; [reflexivity | congruence].
      - right; right. split.
        + rewrite Forall_forall in Hafter. specialize (Hafter _ Hin).
          simpl in Hafter. rewrite Hmz, Hm' in Hafter. simpl in Hafter.
          now apply Z.ltb_ge.
        + rewrite Forall_forall in Hhigh. exact (Hhigh _ Hin). }
    exists i, o, z. unfold select_fastest.
    split; [exact Hmin|]. split; [exact Hm|]. split; [exact Hz|]. split.
    + intros j o' z' Hj Hp'. destruct (Hkey j o' z' Hj Hp') as [?|[?|?]]; lia.
    + intros j o' z' Hj Hp' Hlt. destruct (Hkey j o' z' Hj Hp') as [?|[?|?]]; lia.
Qed.

(** ** The discard list of a returned analysis *)

Lemma build_discarded_ids (recommended_ids : list nat) (cheapest_opt : offer)
  (fastest_opt : option offer) (options : list offer) :
  forall (k : nat) (entries : list discarded_entry),
    build_discarded recommended_ids cheapest_opt fastest_opt (enumerate_from k options)
      = Return entries ->
    map d_id entries
      = filter (fun i => negb (existsb (Nat.eqb i) recommended_ids))
          (seq k (List.length options)) /\
    Forall (fun e => nth_error options (d_id e - k) = Some (d_option e) /\
                     (k <= d_id e)%nat) entries.
Proof.
  induction options as [|opt options IH]; intros k entries H; simpl in H.
  - injection H as <-. split; [reflexivity | constructor].
  - simpl. destruct (existsb (Nat.eqb k) recommended_ids) eqn:Hrec; simpl.
    + destruct (IH (S k) entries H) as [Hids Hall]. split; [exact Hids|].
      eapply Forall_impl; [|exact Hall]. intros e [He Hk]. split; [|lia].
      replace (d_id e - k)%nat with (S (d_id e - S k)) by lia. exact He.
    + destruct (reasons_for opt cheapest_opt fastest_opt) as [reasons|]; [|discriminate].
      destruct (build_discarded _ _ _ (enumerate_from (S k) options)) as [more|] eqn:Hmore;
        [|discriminate].
      simpl in H. injection H as <-.
      destruct (IH (S k) more Hmore) as [Hids Hall]. split.
      * simpl. now rewrite Hids.
      * constructor.
        -- simpl. rewrite Nat.sub_diag. split; [reflexivity | lia].
        -- eapply Forall_impl; [|exact Hall]. intros e [He Hk]. split; [|lia].
           replace (d_id e - k)%nat with (S (d_id e - S k)) by lia. exact He.
Qed.

(** Every analysis that is returned distributes the options by position:
    the discard list holds, in input order and once each, exactly the
    positions that are neither the cheapest's nor the fastest's, with the
    option found there. *)
Lemma analysis_partition (options : list offer) (a : analysis) :
  analyze_best_routes (Options options) = Analysis a ->
  map d_id (discarded a)
    = filter (fun i => negb (existsb (Nat.eqb i) (recommended (cheapest a) (fastest a))))
        (seq 0 (List.length options)) /\
  Forall (fun e => nth_error options (d_id e) = Some (d_option e)) (discarded a).
Proof.
  unfold analyze_best_routes. destruct options as [|o os]; [discriminate|].
  destruct (select_cheapest (o :: os)) as [sel|]; [|discriminate].
  unfold analyze_options.
  destruct (build_discarded _ _ _ _) as [entries|] eqn:Hb; simpl; [|discriminate].
  intros E. injection E as <-. simpl.
  apply build_discarded_ids in Hb as [Hids Hall]. split; [exact Hids|].
  eapply Forall_impl; [|exact Hall]. intros e [He _].
  now rewrite Nat.sub_0_r in He.
Qed.

(** ** The analyser: a discarded option whose duration does not parse *)

(** C1, at a failing input: of the two options, the train is both the
    cheapest and the fastest; the bus, which is not selected, has the
    duration ["garbage"].  Its parsed duration, infinity, is compared
    with the fastest's, the difference is floor-divided by 60 and
    [int()] raises on the resulting nan: the analyser answers its
    "Analysis failed" error object and no analysis at all. *)
Theorem malformed_duration_fails_analysis :
  select_cheapest [hourly_train; garbled_bus] = Some (0%nat, hourly_train) /\
  select_fastest [hourly_train; garbled_bus] = Some (0%nat, hourly_train) /\
  parse_iso_duration_to_minutes "garbage" = PosInf /\
  duration_reasons garbled_bus (Some hourly_train) = Raise ValueError /\
  analyze_best_routes (Options [hourly_train; garbled_bus]) = AnalysisFailed ValueError.
Proof. repeat split; vm_compute; reflexivity. Qed.

(** C3, at a failing input: with the scenario's bus and flight and a
    third option that lasts more than a day (["P1DT2H30M"], which does
    not start with ["PT"] and so does not parse), the loop that builds the
    discard list raises, so the input options are not distributed over a
    cheapest, a fastest and a discard list: the answer is the "Analysis
    failed" error object. *)
Theorem discard_loop_drops_all_options :
  build_discarded [0%nat; 1%nat] bus_45 (Some flight_120)
    (enumerate [bus_45; flight_120; overnight_flight]) = Raise ValueError /\
  analyze_best_routes (Options [bus_45; flight_120; overnight_flight])
    = AnalysisFailed ValueError /\
  (forall a, analyze_best_routes (Options [bus_45; flight_120; overnight_flight])
             <> Analysis a).
Proof.
  split; [vm_compute; reflexivity|].
  assert (E : analyze_best_routes (Options [bus_45; flight_120; overnight_flight])
              = AnalysisFailed ValueError) by (vm_compute; reflexivity).
  split; [exact E|]. intros a. rewrite E. discriminate.
Qed.

(** C4, at a failing input: an option with the price of the cheapest and
    a duration that does not parse gets no price reason, and the
    duration comparison, instead of yielding a reason or none, raises;
    no reasons list is built, neither the two-axis one nor the generic
    fallback, and the analysis as a whole is lost. *)
Theorem reasons_raise_on_unparsed_duration :
  price_reasons same_price_ferry hourly_train = [] /\
  num_gt (parse_iso_duration_to_minutes "n/a") (parse_iso_duration_to_minutes "PT1H") = true /\
  reasons_for same_price_ferry hourly_train (Some hourly_train) = Raise ValueError /\
  analyze_best_routes (Options [hourly_train; same_price_ferry]) = AnalysisFailed ValueError.
Proof. repeat split; vm_compute; reflexivity. Qed.

(** ** The optimiser: the option that represents a leg *)

(** C9, at a failing input: an option priced exactly 0 has a price for
    the analyser ([is not None]) but not for the optimiser, whose filter
    tests the price for truth.  A leg offering the free shuttle and a
    train at 10 is represented by the train, not by its minimum-price
    option; a leg offering only the free shuttle counts as a leg without
    priced options, so with such a leg search both orders of two cities
    are dropped and the optimiser answers "no valid routes". *)
Theorem zero_price_is_not_priced :
  has_price free_shuttle = true /\
  truthy_price free_shuttle = false /\
  pick_best_leg [free_shuttle; paid_train] = Some paid_train /\
  pick_best_leg [free_shuttle] = None /\
  optimize_multi_city_route shuttle_only mid_november
    (Cities ["Paris"; "Madrid"]) "2025-11-15" = NoValidRoutes.
Proof. repeat split; vm_compute; reflexivity. Qed.

(** ** The optimiser: total duration of a route *)

Lemma parse_nonneg (s : string) : nonneg (parse_iso_duration_to_minutes s).
Proof.
  destruct (parse_cases s) as [[_ ->]|[_ (n & Hn & ->)]]; simpl; auto.
Qed.

Lemma leg_minutes_nonneg (opt : offer) (d : num) :
  leg_minutes opt = Return d -> nonneg d.
Proof.
  unfold leg_minutes. destruct (duration opt); intros E;
    try discriminate; injection E as <-; apply parse_nonneg.
Qed.

Lemma num_add_nonneg (a b : num) : nonneg a -> nonneg b -> nonneg (num_add a b).
Proof. destruct a, b; simpl; try tauto; lia. Qed.

Lemma sum_nonneg (ds : list num) : forall m,
  nonneg m -> Forall nonneg ds -> nonneg (fold_left num_add ds m).
Proof.
  induction ds as [|d ds IH]; intros m Hm Hds; simpl; [exact Hm|].
  apply Forall_cons_iff in Hds as [Hd Hds]. apply IH; [|exact Hds].
  now apply num_add_nonneg.
Qed.

Lemma sum_from_inf (ds : list num) :
  Forall nonneg ds -> fold_left num_add ds PosInf = PosInf.
Proof.
  induction ds as [|d ds IH]; intros Hds; simpl; [reflexivity|].
  apply Forall_cons_iff in Hds as [Hd Hds].
  destruct d; simpl in *; try tauto; now apply IH.
Qed.

Lemma sum_with_inf (ds : list num) : forall m,
  nonneg m -> Forall nonneg ds -> In PosInf ds -> fold_left num_add ds m = PosInf.
Proof.
  induction ds as [|d ds IH]; intros m Hm Hds Hin; simpl; [destruct Hin|].
  apply Forall_cons_iff in Hds as [Hd Hds]. destruct Hin as [->|Hin].
  - replace (num_add m PosInf) with PosInf by (destruct m; simpl in *; tauto).
    now apply sum_from_inf.
  - apply IH; [now apply num_add_nonneg | exact Hds | exact Hin].
Qed.

Lemma sum_of_zeros (ds : list num) : forall z,
  Forall (fun d => d = Int 0) ds -> fold_left num_add ds (Int z) = Int z.
Proof.
  induction ds as [|d ds IH]; intros z Hds; simpl; [reflexivity|].
  apply Forall_cons_iff in Hds as [-> Hds]. simpl.
  rewrite Z.add_0_r. now apply IH.
Qed.

Lemma nonneg_not_below_zero (a : num) : nonneg a -> num_lt a (Int 0) = false.
Proof. destruct a; simpl; try tauto. intros H. apply Z.ltb_ge. exact H. Qed.

Section OptimizerFacts.
Variable search_all_transport : string -> string -> string -> list offer.
Variable next_day : string -> option string.

Lemma walk_legs_step (origin destination : string) (rest : list string)
  (date : string) (ls : list leg) (p : Q) (m : num) :
  walk_legs search_all_transport next_day (origin :: destination :: rest) date ls p m =
  match pick_best_leg (search_all_transport origin destination date) with
  | None => Return None
  | Some best_leg =>
      leg_duration <- leg_minutes best_leg ;;
      next_date <- advance next_day date ;;
      walk_legs search_all_transport next_day (destination :: rest) next_date
        (ls ++ [mkLeg origin destination date best_leg])%list
        (p + price_of best_leg)%Q (num_add m leg_duration)
  end.
Proof. reflexivity. Qed.

(** The legs appended by a walk and the minutes each of them adds. *)
Lemma walk_legs_minutes (cs : list string) :
  forall date ls p m ls' p' m',
    walk_legs search_all_transport next_day cs date ls p m = Return (Some (ls', p', m')) ->
    exists new ds,
      ls' = (ls ++ new)%list /\
      Forall2 (fun l d => leg_minutes (leg_option l) = Return d) new ds /\
      m' = fold_left num_add ds m.
Proof.
  induction cs as [|origin rest IH]; intros date ls p m ls' p' m' H.
  - injection H as <- <- <-. exists [], []. rewrite app_nil_r. repeat split. constructor.
  - destruct rest as [|destination rest].
    + injection H as <- <- <-. exists [], []. rewrite app_nil_r. repeat split. constructor.
    + rewrite walk_legs_step in H.
      destruct (pick_best_leg _) as [best|]; [|discriminate].
      destruct (leg_minutes best) as [d|] eqn:Hd; [|discriminate].
      destruct (advance next_day date) as [date'|]; [|discriminate].
      simpl in H. apply IH in H as (new & ds & -> & Hall & ->).
      exists (mkLeg origin destination date best :: new), (d :: ds).
      split; [now rewrite <- app_assoc|].
      split; [constructor; [exact Hd | exact Hall] | reflexivity].
Qed.

Lemma collect_routes_keeps (date : string) (perms : list (list string)) :
  forall routes perm r,
    collect_routes search_all_transport next_day date perms = Return routes ->
    In perm perms ->
    evaluate_permutation search_all_transport next_day date perm = Return (Some r) ->
    In r routes.
Proof.
  induction perms as [|q perms IH]; intros routes perm r Hc Hin He; [destruct Hin|].
  simpl in Hc.
  destruct (evaluate_permutation _ _ date q) as [rq|] eqn:Hq; [|discriminate].
  destruct (collect_routes _ _ date perms) as [more|] eqn:Hmore; [|discriminate].
  simpl in Hc. injection Hc as <-.
  destruct Hin as [->|Hin].
  - rewrite He in Hq. injection Hq as <-. now left.
  - specialize (IH more perm r eq_refl Hin He).
    destruct rq; [now right | exact IH].
Qed.

Lemma evaluate_permutation_minutes (date : string) (perm : list string)
  (r : complete_route) :
  evaluate_permutation search_all_transport next_day date perm = Return (Some r) ->
  exists ds,
    Forall2 (fun l d => leg_minutes (leg_option l) = Return d) (legs r) ds /\
    total_duration_minutes r = fold_left num_add ds (Int 0).
Proof.
  unfold evaluate_permutation. intros H.
  destruct (walk_legs _ _ perm date [] 0%Q (Int 0)) as [[[[ls p] m]|]|] eqn:Hw;
    try discriminate.
  simpl in H. injection H as <-. simpl.
  apply walk_legs_minutes in Hw as (new & ds & -> & Hall & ->).
  exists ds. simpl. auto.
Qed.
End OptimizerFacts.

Lemma collect_routes_sound
  (search_all_transport : string -> string -> string -> list offer)
  (next_day : string -> option string) (date : string) (perms : list (list string)) :
  forall routes r,
    collect_routes search_all_transport next_day date perms = Return routes ->
    In r routes ->
    exists perm, In perm perms /\
      evaluate_permutation search_all_transport next_day date perm = Return (Some r).
Proof.
  induction perms as [|q perms IH]; intros routes r Hc Hin; simpl in Hc.
  - injection Hc as <-. destruct Hin.
  - destruct (evaluate_permutation _ _ date q) as [rq|] eqn:Hq; [|discriminate].
    destruct (collect_routes _ _ date perms) as [more|] eqn:Hmore; [|discriminate].
    simpl in Hc. injection Hc as <-.
    assert (Hmore' : In r more -> exists perm, In perm (q :: perms) /\
              evaluate_permutation search_all_transport next_day date perm
                = Return (Some r)).
    { intros H. destruct (IH more r eq_refl H) as (perm & Hp & He).
      exists perm. split; [now right | exact He]. }
    destruct rq as [cr|]; [|exact (Hmore' Hin)].
    destruct Hin as [<-|Hin]; [|exact (Hmore' Hin)].
    exists q. split; [now left | exact Hq].
Qed.

Lemma route_total_nonneg
  (search_all_transport : string -> string -> string -> list offer)
  (next_day : string -> option string) (date : string) (perm : list string)
  (r : complete_route) :
  evaluate_permutation search_all_transport next_day date perm = Return (Some r) ->
  nonneg (total_duration_minutes r).
Proof.
  intros Hr. destruct (evaluate_permutation_minutes _ _ _ _ _ Hr) as (ds & Hall & ->).
  apply sum_nonneg; [simpl; lia|].
  clear Hr. induction Hall as [|l d ls ds Hd _ IH]; constructor; [|exact IH].
  exact (leg_minutes_nonneg _ _ Hd).
Qed.

(** Among routes whose totals are non-negative ints or infinity, the
    fastest chosen by [min] totals 0 as soon as some route does. *)
Lemma fastest_route_is_zero (routes : list complete_route) (r : complete_route)
  (sel : nat * complete_route) :
  Forall (fun x => nonneg (total_duration_minutes x)) routes ->
  In r routes -> total_duration_minutes r = Int 0 ->
  py_min (fun ir : nat * complete_route => total_duration_minutes (snd ir)) num_lt
    (enumerate routes) = Some sel ->
  total_duration_minutes (snd sel) = Int 0.
Proof.
  intros Hnn Hin Hzero Hmin.
  destruct (In_nth_error _ _ Hin) as [i Hi]. apply in_enumerate in Hi.
  destruct (py_min_first (fun ir : nat * complete_route => total_duration_minutes (snd ir))
              num_lt (fun ir => nonneg (total_duration_minutes (snd ir))))
    with (l := enumerate routes)
    as (l1 & m & l2 & Hm & Hsplit & Pm & Hbefore & Hafter).
  - intros a b c Pa Pb Pc.
    destruct (total_duration_minutes (snd a)), (total_duration_minutes (snd b)),
      (total_duration_minutes (snd c)); simpl in *; try tauto; try discriminate.
    rewrite !Z.ltb_lt. lia.
  - intros a b c Pa Pb Pc.
    destruct (total_duration_minutes (snd a)), (total_duration_minutes (snd b)),
      (total_duration_minutes (snd c)); simpl in *; try tauto; try discriminate.
    rewrite !Z.ltb_lt, Z.ltb_ge. lia.
  - apply Forall_forall. intros [j x] Hx. apply in_enumerate in Hx.
    apply nth_error_In in Hx. rewrite Forall_forall in Hnn. simpl. now apply Hnn.
  - intros E. rewrite E in Hi. exact Hi.
  - rewrite Hm in Hmin. injection Hmin as <-.
    rewrite Hsplit in Hi. apply in_app_or in Hi as [Hi|[E|Hi]].
    + rewrite Forall_forall in Hbefore. specialize (Hbefore _ Hi). simpl in Hbefore.
      rewrite Hzero in Hbefore. rewrite nonneg_not_below_zero in Hbefore by exact Pm.
      discriminate.
    + subst m. exact Hzero.
    + rewrite Forall_forall in Hafter. specialize (Hafter _ Hi). simpl in Hafter.
      rewrite Hzero in Hafter.
      destruct (total_duration_minutes (snd m)); simpl in *; try tauto; try discriminate.
      apply Z.ltb_ge in Hafter. f_equal. lia.
Qed.

Lemma Forall2_pick {A B : Type} (R : A -> B -> Prop) (l : list A) (ds : list B) (x : A) :
  Forall2 R l ds -> In x l -> exists d, In d ds /\ R x d.
Proof.
  induction 1 as [|y d l ds Hyd _ IH]; intros Hin; [destruct Hin|].
  destruct Hin as [->|Hin].
  - exists d. split; [now left | exact Hyd].
  - destruct (IH Hin) as (d' & Hd' & HR). exists d'. split; [now right | exact HR].
Qed.

Lemma Forall2_values {A B : Type} (R : A -> B -> Prop) (good : B -> Prop)
  (l : list A) (ds : list B) :
  Forall2 R l ds -> (forall x d, In x l -> R x d -> good d) -> Forall good ds.
Proof.
  induction 1 as [|y d l ds Hyd _ IH]; intros HQ; constructor.
  - apply (HQ y d); [now left | exact Hyd].
  - apply IH. intros x d' Hx. apply HQ. now right.
Qed.

Lemma leg_minutes_read (opt : offer) (d : num) :
  leg_minutes opt = Return d ->
  duration opt <> DurationNull /\
  d = parse_iso_duration_to_minutes (duration_or_PT0M opt).
Proof.
  unfold leg_minutes, duration_or_PT0M.
  destruct (duration opt); intros E; try discriminate; injection E as <-;
    split; (discriminate || reflexivity).
Qed.

Lemma legs_minutes_read (ls : list leg) (ds : list num) :
  Forall2 (fun l d => leg_minutes (leg_option l) = Return d) ls ds ->
  Forall (fun l => duration (leg_option l) <> DurationNull) ls /\
  ds = map (fun l => parse_iso_duration_to_minutes (duration_or_PT0M (leg_option l))) ls.
Proof.
  induction 1 as [|l d ls ds Hd _ [IH1 IH2]]; simpl.
  - split; [constructor | reflexivity].
  - apply leg_minutes_read in Hd as [Hnull ->]. split; [now constructor|].
    now rewrite IH2.
Qed.

Lemma sum_of_ints (ls : list leg) (zs : list Z) : forall a,
  Forall2 (fun l z => parse_iso_duration_to_minutes (duration_or_PT0M (leg_option l)) = Int z)
    ls zs ->
  fold_left num_add
    (map (fun l => parse_iso_duration_to_minutes (duration_or_PT0M (leg_option l))) ls) (Int a)
  = Int (fold_left Z.add zs a).
Proof.
  intros a H. revert a.
  induction H as [|l z ls zs Hz _ IH]; intros a; simpl; [reflexivity|].
  rewrite Hz. simpl. apply IH.
Qed.



(** ** The optimiser: the visiting orders *)

Section Orderings.
Context {A : Type}.

Lemma map_fst_selections (l : list A) : map fst (selections l) = l.
Proof.
  induction l as [|x l IH]; simpl; [reflexivity|].
  rewrite map_map. f_equal. rewrite <- IH at 2.
  apply map_ext. intros [y r]. reflexivity.
Qed.

Lemma selections_length (l : list A) : List.length (selections l) = List.length l.
Proof. rewrite <- (map_fst_selections l) at 2. now rewrite length_map. Qed.

Lemma selections_perm (l : list A) : forall x r,
  In (x, r) (selections l) -> Permutation (x :: r) l.
Proof.
  induction l as [|y l IH]; intros x r Hin; [destruct Hin|].
  simpl in Hin. destruct Hin as [E|Hin].
  - injection E as <- <-. reflexivity.
  - apply in_map_iff in Hin as ([x' r'] & E & Hin). simpl in E.
    injection E as <- <-. apply IH in Hin.
    rewrite perm_swap. now constructor.
Qed.

Lemma selections_complete (l : list A) (x : A) :
  In x l -> exists r, In (x, r) (selections l).
Proof.
  intros Hin. rewrite <- (map_fst_selections l) in Hin.
  apply in_map_iff in Hin as ([x' r] & E & Hin). simpl in E. subst x'.
  now exists r.
Qed.

Lemma flat_map_length_const {B C : Type} (f : B -> list C) (k : nat) (l : list B) :
  (forall x, In x l -> List.length (f x) = k) ->
  List.length (flat_map f l) = (List.length l * k)%nat.
Proof.
  induction l as [|x l IH]; intros H; simpl; [reflexivity|].
  rewrite length_app, H by now left.
  rewrite IH; [reflexivity|]. intros y Hy. apply H. now right.
Qed.

Lemma orderings_length (n : nat) : forall l : list A,
  List.length l = n -> List.length (orderings n l) = fact n.
Proof.
  induction n as [|n IH]; intros l Hl; [reflexivity|].
  cbn [orderings fact].
  rewrite (flat_map_length_const _ (fact n)).
  - rewrite selections_length, Hl. simpl. lia.
  - intros [x r] Hin. simpl. rewrite length_map. apply IH.
    apply selections_perm, Permutation_length in Hin. simpl in Hin. lia.
Qed.

Lemma orderings_perm (n : nat) : forall l p : list A,
  List.length l = n -> In p (orderings n l) -> Permutation l p.
Proof.
  induction n as [|n IH]; intros l p Hl Hin.
  - destruct l; [|discriminate]. simpl in Hin. destruct Hin as [<-|[]]. constructor.
  - cbn [orderings] in Hin. apply in_flat_map in Hin as ([x r] & Hsel & Hin).
    simpl in Hin. apply in_map_iff in Hin as (q & <- & Hq).
    pose proof (selections_perm _ _ _ Hsel) as Hperm.
    rewrite <- Hperm. constructor. apply IH; [|exact Hq].
    apply Permutation_length in Hperm. simpl in Hperm. lia.
Qed.

Lemma orderings_complete (n : nat) : forall l p : list A,
  List.length l = n -> Permutation l p -> In p (orderings n l).
Proof.
  induction n as [|n IH]; intros l p Hl Hperm.
  - destruct l; [|discriminate]. apply Permutation_nil in Hperm. subst. now left.
  - destruct p as [|x p].
    { apply Permutation_length in Hperm. simpl in Hperm. lia. }
    assert (Hx : In x l).
    { apply (Permutation_in x (Permutation_sym Hperm)). now left. }
    destruct (selections_complete l x Hx) as [r Hsel].
    cbn [orderings]. apply in_flat_map. exists (x, r). split; [exact Hsel|].
    simpl. apply in_map. apply IH.
    + apply selections_perm, Permutation_length in Hsel. simpl in Hsel. lia.
    + apply selections_perm in Hsel.
      apply Permutation_cons_inv with (a := x).
      now rewrite Hsel.
Qed.

Lemma cons_nodup (x : A) (ps : list (list A)) :
  NoDup ps -> NoDup (map (cons x) ps).
Proof.
  induction 1 as [|p ps Hp _ IH]; simpl; constructor; [|exact IH].
  intros Hin. apply in_map_iff in Hin as (q & E & Hq).
  injection E as ->. exact (Hp Hq).
Qed.

Lemma heads_nodup (f : list A -> list (list A)) (sels : list (A * list A)) :
  NoDup (map fst sels) ->
  (forall xr, In xr sels -> NoDup (f (snd xr))) ->
  NoDup (flat_map (fun xr => map (cons (fst xr)) (f (snd xr))) sels).
Proof.
  induction sels as [|[x r] sels IH]; simpl; intros Hnd Hf; [constructor|].
  inversion Hnd as [|? ? Hx Hrest]; subst.
  apply NoDup_app.
  - apply cons_nodup. apply (Hf (x, r)). now left.
  - apply IH; [exact Hrest|]. intros xr Hxr. apply Hf. now right.
  - intros p Hp Hp'. apply in_map_iff in Hp as (q & <- & _).
    apply in_flat_map in Hp' as ([y r'] & Hy & Hin). simpl in Hin.
    apply in_map_iff in Hin as (q' & E & _). injection E as -> _.
    apply Hx. apply in_map_iff. exists (x, r'). split; [reflexivity | exact Hy].
Qed.

Lemma orderings_nodup (n : nat) : forall l : list A,
  List.length l = n -> NoDup l -> NoDup (orderings n l).
Proof.
  induction n as [|n IH]; intros l Hl Hnd.
  - simpl. constructor; [intros [] | constructor].
  - cbn [orderings]. apply heads_nodup.
    + now rewrite map_fst_selections.
    + intros [x r] Hsel. simpl.
      pose proof (selections_perm _ _ _ Hsel) as Hperm.
      apply IH.
      * apply Permutation_length in Hperm. simpl in Hperm. lia.
      * apply Permutation_sym in Hperm.
        apply (Permutation_NoDup Hperm) in Hnd. now inversion Hnd.
Qed.
End Orderings.

Lemma collect_routes_length
  (search_all_transport : string -> string -> string -> list offer)
  (next_day : string -> option string) (date : string) (perms : list (list string)) :
  forall routes,
    collect_routes search_all_transport next_day date perms = Return routes ->
    (List.length routes <= List.length perms)%nat.
Proof.
  induction perms as [|q perms IH]; intros routes Hc; simpl in Hc.
  - injection Hc as <-. simpl. lia.
  - destruct (evaluate_permutation _ _ date q) as [rq|]; [|discriminate].
    destruct (collect_routes _ _ date perms) as [more|]; [|discriminate].
    simpl in Hc. injection Hc as <-. specialize (IH more eq_refl).
    destruct rq; simpl; lia.
Qed.

(** * Further properties of the analyser *)

Lemma min_loop_in {A K : Type} (key : A -> K) (lt : K -> K -> bool) (l : list A) :
  forall best, In (min_loop key lt best l) (best :: l).
Proof.
  induction l as [|x l IH]; intros best; simpl; [now left|].
  destruct (IH (if lt (key x) (key best) then x else best)) as [E|H].
  - destruct (lt (key x) (key best)); rewrite <- E; auto.
  - right. now right.
Qed.

Lemma py_min_in {A K : Type} (key : A -> K) (lt : K -> K -> bool) (l : list A) (m : A) :
  py_min key lt l = Some m -> In m l.
Proof.
  destruct l as [|x l]; [discriminate|]. simpl. intros E. injection E as <-.
  apply min_loop_in.
Qed.

Lemma select_cheapest_in (options : list offer) (c : nat * offer) :
  select_cheapest options = Some c ->
  nth_error options (fst c) = Some (snd c) /\ has_price (snd c) = true.
Proof.
  intros H. apply py_min_in in H. apply filter_In in H as [H Hp].
  destruct c as [i o]. now apply in_enumerate in H.
Qed.

Lemma select_fastest_in (options : list offer) (f : nat * offer) :
  select_fastest options = Some f ->
  nth_error options (fst f) = Some (snd f) /\ has_duration (snd f) = true.
Proof.
  intros H. apply py_min_in in H. apply filter_In in H as [H Hp].
  destruct f as [i o]. now apply in_enumerate in H.
Qed.

Lemma in_recommended (i : nat) (ids : list nat) :
  existsb (Nat.eqb i) ids = true <-> In i ids.
Proof.
  rewrite existsb_exists. split.
  - intros (x & Hx & E). apply Nat.eqb_eq in E. now subst.
  - intros H. exists i. split; [exact H | apply Nat.eqb_refl].
Qed.

Lemma recommended_nodup (c : nat * offer) (f : option (nat * offer)) :
  NoDup (recommended c f).
Proof.
  unfold recommended. destruct f as [f|].
  - destruct (Nat.eqb (fst f) (fst c)) eqn:E.
    + constructor; [intros [] | constructor].
    + apply Nat.eqb_neq in E. constructor.
      * intros [H|[]]. congruence.
      * constructor; [intros [] | constructor].
  - constructor; [intros [] | constructor].
Qed.

Lemma kept_positions_length (ids : list nat) (n : nat) :
  NoDup ids -> (forall i, In i ids -> (i < n)%nat) ->
  (List.length (filter (fun i => negb (existsb (Nat.eqb i) ids)) (seq 0 n))
   + List.length ids = n)%nat.
Proof.
  intros Hnd Hlt.
  pose proof (filter_length (fun i => negb (existsb (Nat.eqb i) ids)) (seq 0 n)) as H.
  rewrite length_seq in H.
  assert (E : List.length (filter (fun x => negb (negb (existsb (Nat.eqb x) ids))) (seq 0 n))
              = List.length ids).
  { apply Permutation_length. apply NoDup_Permutation.
    - apply NoDup_filter, seq_NoDup.
    - exact Hnd.
    - intros i. rewrite filter_In, negb_involutive, in_recommended, in_seq. split.
      + tauto.
      + intros Hi. split; [|exact Hi]. specialize (Hlt i Hi). lia. }
  lia.
Qed.

(** X1: every analysis that is returned distributes the options by
    position.  The selected positions (the cheapest's and, when there is
    a fastest at another position, the fastest's) hold the selected
    options; the discard list holds, in input order and once each,
    exactly the other positions with the options found there; so its
    length is the number of options less the one or two selected, and
    [same_option] is raised exactly when the cheapest is also the
    fastest. *)
Theorem returned_analysis_partition (options : list offer) (a : analysis) :
  analyze_best_routes (Options options) = Analysis a ->
  let selected := recommended (cheapest a) (fastest a) in
  total_options_analyzed a = List.length options /\
  nth_error options (fst (cheapest a)) = Some (snd (cheapest a)) /\
  (forall f, fastest a = Some f -> nth_error options (fst f) = Some (snd f)) /\
  map d_id (discarded a)
    = filter (fun i => negb (existsb (Nat.eqb i) selected)) (seq 0 (List.length options)) /\
  NoDup (map d_id (discarded a)) /\
  (forall i, In i (map d_id (discarded a)) <->
             (i < List.length options)%nat /\ ~ In i selected) /\
  Forall (fun e => nth_error options (d_id e) = Some (d_option e)) (discarded a) /\
  (List.length (discarded a) + List.length selected = List.length options)%nat /\
  (1 <= List.length selected <= 2)%nat /\
  (same_option a = true <-> exists f, fastest a = Some f /\ fst f = fst (cheapest a)).
Proof.
  intros Ha selected.
  destruct (analysis_partition options a Ha) as [Hids Hall].
  destruct (analysis_reports_selection options a Ha) as [Hc Hf].
  destruct (select_cheapest_in _ _ Hc) as [Hcn _].
  assert (Hfn : forall f, fastest a = Some f -> nth_error options (fst f) = Some (snd f)).
  { intros f E. rewrite Hf in E. now apply select_fastest_in in E. }
  assert (Hlt : forall i, In i selected -> (i < List.length options)%nat).
  { intros i Hi. subst selected. unfold recommended in Hi.
    destruct Hi as [<-|Hi].
    - apply nth_error_Some. congruence.
    - destruct (fastest a) as [f|] eqn:E; [|destruct Hi].
      destruct (Nat.eqb (fst f) (fst (cheapest a))); [destruct Hi|].
      destruct Hi as [<-|[]]. apply nth_error_Some. rewrite (Hfn f eq_refl). discriminate. }
  split.
  { unfold analyze_best_routes in Ha. destruct options as [|o os]; [discriminate|].
    destruct (select_cheapest (o :: os)); [|discriminate].
    unfold analyze_options in Ha. destruct (build_discarded _ _ _ _); [|discriminate].
    simpl in Ha. injection Ha as <-. reflexivity. }
  split; [exact Hcn|]. split; [exact Hfn|]. split; [exact Hids|].
  split; [rewrite Hids; apply NoDup_filter, seq_NoDup|].
  split.
  { intros i. rewrite Hids, filter_In, in_seq, negb_true_iff.
    rewrite <- in_recommended. unfold selected.
    destruct (existsb (Nat.eqb i) (recommended (cheapest a) (fastest a))).
    - split; intros [H1 H2]; [discriminate | exfalso; now apply H2].
    - split; intros [H1 H2]; (split; [lia | (reflexivity || discriminate)]). }
  split; [exact Hall|].
  split.
  { rewrite <- (length_map d_id), Hids.
    apply kept_positions_length; [apply recommended_nodup | exact Hlt]. }
  split.
  { subst selected. unfold recommended. destruct (fastest a) as [f|]; simpl; [|lia].
    destruct (Nat.eqb (fst f) (fst (cheapest a))); simpl; lia. }
  unfold analyze_best_routes in Ha. destruct options as [|o os]; [discriminate|].
  destruct (select_cheapest (o :: os)) as [sel|]; [|discriminate].
  unfold analyze_options in Ha. destruct (build_discarded _ _ _ _); [|discriminate].
  simpl in Ha. injection Ha as <-. simpl.
  destruct (select_fastest (o :: os)) as [f|].
  - rewrite Nat.eqb_eq. split.
    + intros E. exists f. split; [reflexivity | now symmetry].
    + intros (f' & E & E'). injection E as <-. now symmetry.
  - split; [discriminate|]. intros (f' & E & _). discriminate.
Qed.

Lemma returned_analysis_partition_witness :
  (List.length (discarded scenario_result)
   + List.length (recommended (cheapest scenario_result) (fastest scenario_result))
   = List.length [bus_45; flight_120; train_95])%nat.
Proof.
  destruct (returned_analysis_partition [bus_45; flight_120; train_95] scenario_result)
    as (_ & _ & _ & _ & _ & _ & _ & Hlen & _).
  - vm_compute. reflexivity.
  - exact Hlen.
Defined.

Lemma has_duration_truthy (f : offer) :
  has_duration f = true ->
  exists fd z, truthy_duration f = Some fd /\ 0 <= z /\
               parse_iso_duration_to_minutes fd = Int z.
Proof.
  unfold has_duration. destruct (truthy_duration f) as [fd|]; [|discriminate].
  intros H. destruct (parse_cases fd) as [[_ E]|[_ (z & Hz & E)]].
  - rewrite E in H. discriminate.
  - exists fd, z. auto.
Qed.

(** The duration comparison raises exactly for an option whose non-empty
    duration parses to infinity, once there is a fastest. *)
Lemma duration_reasons_outcome (opt f : offer) :
  has_duration f = true ->
  (exists s, truthy_duration opt = Some s /\
             parse_iso_duration_to_minutes s = PosInf /\
             duration_reasons opt (Some f) = Raise ValueError) \/
  ((forall s, truthy_duration opt = Some s ->
              parse_iso_duration_to_minutes s <> PosInf) /\
   exists rs, duration_reasons opt (Some f) = Return rs /\ (List.length rs <= 1)%nat).
Proof.
  intros Hf. destruct (has_duration_truthy f Hf) as (fd & z & Hfd & Hz & Hpf).
  unfold duration_reasons. rewrite Hfd, Hpf.
  destruct (truthy_duration opt) as [d|].
  - destruct (parse_cases d) as [[_ E]|[_ (n & Hn & E)]]; rewrite E.
    + left. exists d. split; [reflexivity | split; [exact E | reflexivity]].
    + right. split; [intros s Hs; injection Hs as <-; rewrite E; discriminate|].
      unfold num_gt. simpl. destruct (z <? n); eexists; split; try reflexivity; simpl; lia.
  - right. split; [intros s Hs; discriminate|].
    exists []. split; [reflexivity | simpl; lia].
Qed.

Lemma price_reasons_length (opt c : offer) : (List.length (price_reasons opt c) <= 1)%nat.
Proof.
  unfold price_reasons. destruct (price opt); [|simpl; lia].
  destruct (Qltb _ _); simpl; lia.
Qed.

Lemma reasons_for_return (opt c : offer) (f : option offer) (timed : list string) :
  duration_reasons opt f = Return timed ->
  reasons_for opt c f
  = Return (match (price_reasons opt c ++ timed)%list with
            | [] => ["Not the cheapest or fastest option"]
            | rs => rs
            end).
Proof.
  intros H. unfold reasons_for. rewrite H. simpl.
  destruct (price_reasons opt c ++ timed)%list; reflexivity.
Qed.

Lemma reasons_for_raise (opt c : offer) (f : option offer) (e : pyexn) :
  duration_reasons opt f = Raise e -> reasons_for opt c f = Raise e.
Proof. intros H. unfold reasons_for. now rewrite H. Qed.

(** The loop either returns, every option it words having reasons, or
    raises what the reasons of one of them raise. *)
Lemma build_discarded_outcome (ids : list nat) (c : offer) (f : option offer)
  (l : list (nat * offer)) :
  (exists entries,
     build_discarded ids c f l = Return entries /\
     forall i opt, In (i, opt) l -> existsb (Nat.eqb i) ids = false ->
                   exists rs, reasons_for opt c f = Return rs) \/
  (exists e i opt,
     build_discarded ids c f l = Raise e /\
     In (i, opt) l /\ existsb (Nat.eqb i) ids = false /\
     reasons_for opt c f = Raise e).
Proof.
  induction l as [|[k o] l IH]; simpl.
  - left. exists []. split; [reflexivity | intros i opt []].
  - destruct (existsb (Nat.eqb k) ids) eqn:Hk.
    + destruct IH as [(entries & E & H)|(e & i & opt & E & Hin & Hi & Hr)].
      * left. exists entries. split; [exact E|].
        intros i opt [Heq|Hin] Hi; [injection Heq as -> ->; congruence | eauto].
      * right. exists e, i, opt. auto.
    + destruct (reasons_for o c f) as [rs|e] eqn:Hr.
      * destruct IH as [(entries & E & H)|(e & i & opt & E & Hin & Hi & Hr')].
        -- left. rewrite E. simpl. eexists. split; [reflexivity|].
           intros i opt [Heq|Hin] Hi; [injection Heq as -> ->; eauto | eauto].
        -- right. rewrite E. simpl. exists e, i, opt. auto.
      * right. exists e, k, o. simpl. auto.
Qed.

(** X2: with some priced option the analyser either returns an analysis
    or answers "Analysis failed" on a ValueError, and it fails exactly
    when there is a fastest and some option that is neither the cheapest
    nor the fastest holds a non-empty duration that parses to infinity.
    In particular it always returns an analysis when no duration of the
    input parses. *)
Theorem analysis_failure_condition (options : list offer) :
  (exists o, In o options /\ has_price o = true) ->
  ((exists a, analyze_best_routes (Options options) = Analysis a) \/
   analyze_best_routes (Options options) = AnalysisFailed ValueError) /\
  (analyze_best_routes (Options options) = AnalysisFailed ValueError <->
   exists c f i opt s,
     select_cheapest options = Some c /\ select_fastest options = Some f /\
     nth_error options i = Some opt /\ i <> fst c /\ i <> fst f /\
     duration opt = DurationStr s /\ s <> "" /\
     parse_iso_duration_to_minutes s = PosInf) /\
  (select_fastest options = None ->
   exists a, analyze_best_routes (Options options) = Analysis a).
Proof.
  intros Hpriced.
  destruct (select_cheapest_spec options Hpriced) as (ci & co & _ & Hc & _).
  assert (Hne : options <> []).
  { destruct Hpriced as (o & Hin & _). intros ->. destruct Hin. }
  assert (Hana : analyze_best_routes (Options options)
                 = match analyze_options options (ci, co) with
                   | Return a => Analysis a
                   | Raise e => AnalysisFailed e
                   end).
  { unfold analyze_best_routes. destruct options; [congruence|]. now rewrite Hc. }
  assert (Htruthy : forall opt s, truthy_duration opt = Some s <->
                                  duration opt = DurationStr s /\ s <> "").
  { intros opt s. unfold truthy_duration. destruct (duration opt) as [| |d].
    - split; [discriminate | intros [H _]; discriminate].
    - split; [discriminate | intros [H _]; discriminate].
    - destruct (String.eqb d "") eqn:E.
      + apply String.eqb_eq in E. subst d. split; [discriminate|].
        intros [H Hs]. injection H as <-. congruence.
      + apply String.eqb_neq in E. split.
        * intros H. injection H as <-. auto.
        * intros [H _]. now injection H as <-. }
  unfold analyze_options in Hana.
  remember (analyze_best_routes (Options options)) as result eqn:Hresult.
  clear Hresult.
  destruct (select_fastest options) as [[fi fo]|] eqn:Hf.
  - destruct (select_fastest_in _ _ Hf) as [_ Hfd]. simpl in Hfd, Hana.
    assert (Hrec : forall i, existsb (Nat.eqb i) (recommended (ci, co) (Some (fi, fo))) = false
                             <-> i <> ci /\ i <> fi).
    { intros i. rewrite <- not_true_iff_false, in_recommended. unfold recommended. simpl.
      destruct (Nat.eqb fi ci) eqn:E.
      - apply Nat.eqb_eq in E. subst. simpl. intuition congruence.
      - simpl. intuition congruence. }
    destruct (build_discarded_outcome (recommended (ci, co) (Some (fi, fo))) co (Some fo)
                (enumerate options))
      as [(entries & E & Hall)|(e & i & opt & E & Hin & Hi & Hr)];
      rewrite E in Hana; simpl in Hana.
    + split; [left; eauto|]. split; [|discriminate].
      rewrite Hana. split; [discriminate|].
      intros (c & f & i & opt & s & Ec & Ef & Hi & Hic & Hif & Hd & Hs & Hp).
      rewrite Hc in Ec. injection Ec as <-. injection Ef as <-. simpl in *.
      apply in_enumerate in Hi.
      destruct (Hall i opt Hi (proj2 (Hrec i) (conj Hic Hif))) as [rs Hrs].
      destruct (duration_reasons_outcome opt fo Hfd) as [(s' & _ & _ & Hraise)|[Hno _]].
      * apply (reasons_for_raise opt co) in Hraise. congruence.
      * exfalso. apply (Hno s); [now apply Htruthy | exact Hp].
    + destruct (duration_reasons_outcome opt fo Hfd)
        as [(s & Hs & Hp & Hraise)|[_ (rs & Hret & _)]].
      * apply (reasons_for_raise opt co) in Hraise. rewrite Hraise in Hr.
        injection Hr as <-.
        split; [now right|]. split; [|discriminate].
        split; [|intros _; exact Hana]. intros _.
        exists (ci, co), (fi, fo), i, opt, s. apply Hrec in Hi as [Hic Hif].
        apply in_enumerate in Hin. apply Htruthy in Hs as [Hd Hs]. simpl.
        repeat split; assumption.
      * apply (reasons_for_return opt co) in Hret. congruence.
  - simpl in Hana.
    destruct (build_discarded_outcome (recommended (ci, co) None) co None (enumerate options))
      as [(entries & E & _)|(e & i & opt & E & _ & _ & Hr)].
    + rewrite E in Hana. simpl in Hana.
      split; [left; eauto|]. split; [|intros _; eauto].
      rewrite Hana. split; [discriminate|].
      intros (c & f & _ & _ & _ & _ & Ef & _). discriminate.
    + exfalso. unfold reasons_for, duration_reasons in Hr.
      destruct (truthy_duration opt); discriminate.
Qed.

Lemma analysis_failure_condition_witness :
  analyze_best_routes (Options [hourly_train; garbled_bus]) = AnalysisFailed ValueError.
Proof.
  destruct (analysis_failure_condition [hourly_train; garbled_bus]) as (_ & Hiff & _).
  - exists hourly_train. split; [now left | reflexivity].
  - apply Hiff.
    exists (0%nat, hourly_train), (0%nat, hourly_train), 1%nat, garbled_bus, "garbage".
    repeat split; (reflexivity || discriminate).
Defined.

(** ** What the analyser answers once a cheapest exists *)

Lemma truthy_duration_string (opt : offer) (s : string) :
  truthy_duration opt = Some s <-> duration opt = DurationStr s /\ s <> "".
Proof.
  unfold truthy_duration. destruct (duration opt) as [| |d].
  - split; [discriminate | intros [H _]; discriminate].
  - split; [discriminate | intros [H _]; discriminate].
  - destruct (String.eqb d "") eqn:E.
    + apply String.eqb_eq in E. subst d. split; [discriminate|].
      intros [H Hs]. injection H as <-. congruence.
    + apply String.eqb_neq in E. split.
      * intros H. injection H as <-. auto.
      * intros [H _]. now injection H as <-.
Qed.

(** With a cheapest selected, the analyser returns an analysis that
    reports the two selections, unless the discard loop raises; and it
    raises only on an option, neither the cheapest nor the fastest, whose
    non-empty duration parses to infinity, a fastest having been
    found. *)
Lemma analyze_outcome (options : list offer) (c : nat * offer) :
  select_cheapest options = Some c ->
  (exists a, analyze_best_routes (Options options) = Analysis a /\
             cheapest a = c /\ fastest a = select_fastest options) \/
  (analyze_best_routes (Options options) = AnalysisFailed ValueError /\
   exists f i opt s,
     select_fastest options = Some f /\ nth_error options i = Some opt /\
     i <> fst c /\ i <> fst f /\
     duration opt = DurationStr s /\ s <> "" /\
     parse_iso_duration_to_minutes s = PosInf).
Proof.
  intros Hc.
  assert (Hana : analyze_best_routes (Options options)
                 = match analyze_options options c with
                   | Return a => Analysis a
                   | Raise e => AnalysisFailed e
                   end).
  { unfold analyze_best_routes. destruct options; [discriminate Hc|]. now rewrite Hc. }
  rewrite Hana. unfold analyze_options.
  destruct (build_discarded_outcome (recommended c (select_fastest options)) (snd c)
              (option_map snd (select_fastest options)) (enumerate options))
    as [(entries & E & _)|(e & i & opt & E & Hin & Hi & Hr)]; rewrite E; simpl.
  - left. eexists. split; [reflexivity|]. simpl. auto.
  - right. destruct (select_fastest options) as [f|] eqn:Hf.
    + destruct (select_fastest_in _ _ Hf) as [_ Hfd]. simpl in Hr.
      destruct (duration_reasons_outcome opt (snd f) Hfd)
        as [(s & Hs & Hp & Hraise)|[_ (rs & Hret & _)]].
      * apply (reasons_for_raise opt (snd c)) in Hraise. rewrite Hraise in Hr.
        injection Hr as <-. split; [reflexivity|].
        exists f, i, opt, s. apply in_enumerate in Hin.
        apply truthy_duration_string in Hs as [Hd Hs].
        assert (Hnot : ~ In i (recommended c (Some f))).
        { intros H. apply in_recommended in H. congruence. }
        unfold recommended in Hnot.
        split; [reflexivity|]. split; [exact Hin|].
        split; [intros ->; apply Hnot; now left|].
        split; [|auto].
        intros ->. apply Hnot. destruct (Nat.eqb (fst f) (fst c)) eqn:Eq.
        -- apply Nat.eqb_eq in Eq. left. now symmetry.
        -- right. now left.
      * apply (reasons_for_return opt (snd c)) in Hret. congruence.
    + exfalso. simpl in Hr. unfold reasons_for, duration_reasons in Hr.
      destruct (truthy_duration opt); discriminate.
Qed.

(** C5: when some option has a price, there is a first option of
    minimum price: an option of the input that has a price, no priced
    option of the input is cheaper, and every priced option of the same
    price stands after it.  The analyser returns an analysis whose
    cheapest is that option at that position, unless the analysis as a
    whole fails: it then answers "Analysis failed", no cheapest is
    returned, and the cause is an option that is neither the cheapest
    nor the fastest and whose non-empty duration does not parse.  The
    list of the coach with the duration ["unknown"] and the hourly train
    is such a list: the train is its cheapest, and the answer is the
    error object. *)
Theorem cheapest_returned_unless_discard_raises (options : list offer) :
  (exists o, In o options /\ has_price o = true) ->
  (exists i o p,
     nth_error options i = Some o /\
     price o = Some p /\
     (forall j o' p', nth_error options j = Some o' -> price o' = Some p' ->
                      (p <= p')%Q) /\
     (forall j o' p', nth_error options j = Some o' -> price o' = Some p' ->
                      (p' == p)%Q -> (i <= j)%nat) /\
     ((exists a, analyze_best_routes (Options options) = Analysis a /\
                 cheapest a = (i, o)) \/
      (analyze_best_routes (Options options) = AnalysisFailed ValueError /\
       exists f j opt s,
         select_fastest options = Some f /\ nth_error options j = Some opt /\
         j <> i /\ j <> fst f /\
         duration opt = DurationStr s /\ s <> "" /\
         parse_iso_duration_to_minutes s = PosInf))) /\
  select_cheapest [unscheduled_coach; hourly_train] = Some (1%nat, hourly_train) /\
  analyze_best_routes (Options [unscheduled_coach; hourly_train])
    = AnalysisFailed ValueError.
Proof.
  intros Hpriced. split; [|split; vm_compute; reflexivity].
  destruct (select_cheapest_spec options Hpriced)
    as (i & o & p & Hsel & Hnth & Hp & Hmin & Hfirst).
  exists i, o, p.
  split; [exact Hnth|]. split; [exact Hp|]. split; [exact Hmin|]. split.
  - intros j o' p' Hj Hp' Heq.
    destruct (Nat.le_gt_cases i j) as [Hle|Hlt]; [exact Hle|].
    specialize (Hfirst j o' p' Hj Hp' Hlt).
    rewrite Heq in Hfirst. exfalso. exact (Qlt_irrefl _ Hfirst).
  - destruct (analyze_outcome options (i, o) Hsel)
      as [(a & Ha & Hc & _)|(Hfail & f & j & opt & s & H)].
    + left. exists a. auto.
    + right. split; [exact Hfail|]. exists f, j, opt, s. exact H.
Qed.

Lemma cheapest_returned_unless_discard_raises_witness :
  exists i o p,
    nth_error [bus_45; flight_120; train_95] i = Some o /\
    price o = Some p /\
    (forall j o' p', nth_error [bus_45; flight_120; train_95] j = Some o' ->
                     price o' = Some p' -> (p <= p')%Q) /\
    (forall j o' p', nth_error [bus_45; flight_120; train_95] j = Some o' ->
                     price o' = Some p' -> (p' == p)%Q -> (i <= j)%nat) /\
    ((exists a, analyze_best_routes (Options [bus_45; flight_120; train_95]) = Analysis a /\
                cheapest a = (i, o)) \/
     (analyze_best_routes (Options [bus_45; flight_120; train_95])
        = AnalysisFailed ValueError /\
      exists f j opt s,
        select_fastest [bus_45; flight_120; train_95] = Some f /\
        nth_error [bus_45; flight_120; train_95] j = Some opt /\
        j <> i /\ j <> fst f /\
        duration opt = DurationStr s /\ s <> "" /\
        parse_iso_duration_to_minutes s = PosInf)).
Proof.
  apply (cheapest_returned_unless_discard_raises [bus_45; flight_120; train_95]).
  exists bus_45. split; [simpl; auto | reflexivity].
Defined.

(** C6: when some option has a price and some option has a duration that
    parses to a finite number of minutes, there is a first option of
    minimum parsed duration: an option of the input whose duration
    parses, no option with a parsed duration is faster, and every option
    of the same parsed duration stands after it; an option whose
    duration is absent or does not parse is never that option.  The
    analyser returns an analysis whose fastest is that option at that
    position, and whose cheapest is any option without a parsed duration
    that is priced below all the others, unless the analysis as a whole
    fails: it then answers "Analysis failed", no fastest is returned, and
    the cause is an option that is neither the cheapest nor the fastest
    and whose non-empty duration does not parse.  The two trains
    followed by the coach with the duration ["unknown"] are such a list:
    the hourly train is its fastest, and the answer is the error
    object. *)
Theorem fastest_returned_unless_discard_raises (options : list offer) :
  (exists o, In o options /\ has_price o = true) ->
  (exists o z, In o options /\ parses_to o z) ->
  (exists i o z,
     nth_error options i = Some o /\
     parses_to o z /\
     (forall j o' z', nth_error options j = Some o' -> parses_to o' z' -> z <= z') /\
     (forall j o' z', nth_error options j = Some o' -> parses_to o' z' ->
                      z' = z -> (i <= j)%nat) /\
     (forall j o', nth_error options j = Some o' ->
                   (forall z', ~ parses_to o' z') -> j <> i) /\
     ((exists a, analyze_best_routes (Options options) = Analysis a /\
                 fastest a = Some (i, o) /\
                 forall j o' p', nth_error options j = Some o' ->
                   (forall z', ~ parses_to o' z') ->
                   price o' = Some p' ->
                   (forall k o'' p'', nth_error options k = Some o'' ->
                                      price o'' = Some p'' -> k <> j -> (p' < p'')%Q) ->
                   cheapest a = (j, o')) \/
      (analyze_best_routes (Options options) = AnalysisFailed ValueError /\
       exists c j opt s,
         select_cheapest options = Some c /\ nth_error options j = Some opt /\
         j <> fst c /\ j <> i /\
         duration opt = DurationStr s /\ s <> "" /\
         parse_iso_duration_to_minutes s = PosInf))) /\
  select_cheapest [paid_train; hourly_train; unscheduled_coach] = Some (0%nat, paid_train) /\
  select_fastest [paid_train; hourly_train; unscheduled_coach] = Some (1%nat, hourly_train) /\
  analyze_best_routes (Options [paid_train; hourly_train; unscheduled_coach])
    = AnalysisFailed ValueError.
Proof.
  intros Hpriced (o0 & z0 & Hin0 & Hz0).
  split; [|split; [|split]; vm_compute; reflexivity].
  assert (Htimed : exists o, In o options /\ has_duration o = true).
  { exists o0. split; [assumption|]. now apply parses_to_has_duration in Hz0. }
  destruct (select_fastest_spec options Htimed)
    as (i & o & z & Hsel & Hnth & Hz & Hmin & Hfirst).
  destruct (select_cheapest_spec options Hpriced)
    as (ci & co & pc & Hc & Hcn & Hcp & Hcmin & _).
  exists i, o, z.
  split; [exact Hnth|]. split; [exact Hz|]. split; [exact Hmin|].
  split; [|split].
  - intros j o' z' Hj Hp' Heq.
    destruct (Nat.le_gt_cases i j) as [Hle|Hlt]; [exact Hle|].
    specialize (Hfirst j o' z' Hj Hp' Hlt). lia.
  - intros j o' Hj Hno ->. rewrite Hnth in Hj. injection Hj as <-.
    exact (Hno z Hz).
  - destruct (analyze_outcome options (ci, co) Hc)
      as [(a & Ha & Hca & Hfa)|(Hfail & f & j & opt & s & Hf & H)].
    + left. exists a. split; [exact Ha|]. split; [congruence|].
      intros j o' p' Hj _ Hp' Hbelow. rewrite Hca.
      destruct (Nat.eq_dec ci j) as [->|Hne].
      * rewrite Hcn in Hj. now injection Hj as ->.
      * exfalso. specialize (Hbelow ci co pc Hcn Hcp Hne).
        specialize (Hcmin j o' p' Hj Hp').
        exact (Qlt_not_le _ _ Hbelow Hcmin).
    + right. split; [exact Hfail|]. exists (ci, co), j, opt, s.
      rewrite Hsel in Hf. injection Hf as <-. simpl in H. simpl.
      destruct H as (H1 & H2 & H3 & H4). auto.
Qed.

Lemma fastest_returned_unless_discard_raises_witness :
  exists i o z,
    nth_error [bus_45; flight_120; train_95] i = Some o /\
    parses_to o z /\
    (forall j o' z', nth_error [bus_45; flight_120; train_95] j = Some o' ->
                     parses_to o' z' -> z <= z').
Proof.
  destruct (fastest_returned_unless_discard_raises [bus_45; flight_120; train_95])
    as ((i & o & z & H1 & H2 & H3 & _) & _).
  - exists bus_45. split; [simpl; auto | reflexivity].
  - exists flight_120, 150. split; [simpl; auto|].
    exists "PT2H30M". split; reflexivity.
  - exists i, o, z. auto.
Defined.

Lemma duration_reasons_length (opt : offer) (f : option offer) (timed : list string) :
  duration_reasons opt f = Return timed -> (List.length timed <= 1)%nat.
Proof.
  unfold duration_reasons.
  destruct (truthy_duration opt) as [d|]; [|intros E; injection E as <-; simpl; lia].
  destruct f as [f|]; [|intros E; injection E as <-; simpl; lia].
  destruct (truthy_duration f) as [fd|]; [|intros E; injection E as <-; simpl; lia].
  destruct (num_gt _ _); [|intros E; injection E as <-; simpl; lia].
  destruct (py_int (num_floordiv60 _)); [|discriminate].
  destruct (py_int (num_mod60 _)); [|discriminate].
  simpl. intros E. injection E as <-. simpl. lia.
Qed.

Lemma parses_to_truthy (opt : offer) (z : Z) :
  parses_to opt z ->
  exists s, truthy_duration opt = Some s /\ parse_iso_duration_to_minutes s = Int z.
Proof.
  intros (s & Hd & Hp). exists s. split; [|exact Hp].
  unfold truthy_duration. rewrite Hd.
  destruct (String.eqb s "") eqn:E; [|reflexivity].
  apply String.eqb_eq in E. subst s. discriminate.
Qed.

Lemma build_discarded_reasons (ids : list nat) (c : offer) (f : option offer)
  (l : list (nat * offer)) :
  forall entries,
    build_discarded ids c f l = Return entries ->
    Forall (fun e => reasons_for (d_option e) c f = Return (d_reasons e)) entries.
Proof.
  induction l as [|[k o] l IH]; intros entries H; simpl in H.
  - injection H as <-. constructor.
  - destruct (existsb (Nat.eqb k) ids); [now apply IH|].
    destruct (reasons_for o c f) as [rs|] eqn:Hr; [|discriminate].
    destruct (build_discarded ids c f l) as [more|]; [|discriminate].
    simpl in H. injection H as <-. constructor; [exact Hr | now apply IH].
Qed.

Lemma analysis_reasons (options : list offer) (a : analysis) :
  analyze_best_routes (Options options) = Analysis a ->
  Forall (fun e => reasons_for (d_option e) (snd (cheapest a)) (option_map snd (fastest a))
                   = Return (d_reasons e)) (discarded a).
Proof.
  unfold analyze_best_routes. destruct options as [|o os]; [discriminate|].
  destruct (select_cheapest (o :: os)) as [sel|]; [|discriminate].
  unfold analyze_options.
  destruct (build_discarded _ _ _ _) as [entries|] eqn:Hb; simpl; [|discriminate].
  intros E. injection E as <-. simpl. now apply build_discarded_reasons in Hb.
Qed.

(** X3: in every analysis that is returned, a discarded option carries
    one or two reasons, never none.  When it is strictly more expensive
    than the cheapest, the first reason states the price difference with
    two decimals and the option's own currency (EUR when it has none);
    when its parsed duration is strictly above the fastest's, the last
    reason states the difference as hours and minutes, the hours being
    left out below one hour; when it is neither, the only reason is the
    generic one. *)
Theorem discarded_reasons_shape (options : list offer) (a : analysis)
  (e : discarded_entry) :
  analyze_best_routes (Options options) = Analysis a ->
  In e (discarded a) ->
  d_reasons e <> [] /\
  (List.length (d_reasons e) <= 2)%nat /\
  (forall p pc,
     price (d_option e) = Some p -> price (snd (cheapest a)) = Some pc ->
     (pc < p)%Q ->
     hd_error (d_reasons e)
     = Some (format_2f (p - pc) ++ " " ++ currency_of (d_option e)
             ++ " more expensive than cheapest")) /\
  (forall f z zf,
     fastest a = Some f -> parses_to (d_option e) z -> parses_to (snd f) zf ->
     zf < z ->
     exists before,
       d_reasons e
       = (before ++ [(time_str ((z - zf) / 60) ((z - zf) mod 60)
                      ++ " slower than fastest")%string])%list) /\
  ((forall p pc, price (d_option e) = Some p -> price (snd (cheapest a)) = Some pc ->
                 (p <= pc)%Q) ->
   (forall f z zf, fastest a = Some f -> parses_to (d_option e) z ->
                   parses_to (snd f) zf -> z <= zf) ->
   d_reasons e = ["Not the cheapest or fastest option"]).
Proof.
  intros Ha He.
  pose proof (analysis_reasons options a Ha) as Hall.
  rewrite Forall_forall in Hall. specialize (Hall e He).
  destruct (analysis_reports_selection options a Ha) as [Hc Hf].
  destruct (select_cheapest_in _ _ Hc) as [_ Hcp].
  assert (Hfd : forall f, fastest a = Some f -> has_duration (snd f) = true).
  { intros f E. rewrite Hf in E. now apply select_fastest_in in E. }
  remember (d_option e) as opt eqn:Eopt. remember (snd (cheapest a)) as c eqn:Ec.
  unfold reasons_for in Hall.
  destruct (duration_reasons opt (option_map snd (fastest a))) as [timed|] eqn:Ht;
    [|discriminate].
  simpl in Hall. injection Hall as Hrs.
  pose proof (duration_reasons_length _ _ _ Ht) as Htl.
  pose proof (price_reasons_length opt c) as Hpl.
  split.
  { rewrite <- Hrs. destruct (price_reasons opt c ++ timed)%list; discriminate. }
  split.
  { rewrite <- Hrs. destruct (price_reasons opt c ++ timed)%list eqn:E; [simpl; lia|].
    rewrite <- E, length_app. lia. }
  split.
  { intros p pc Hp Hpc Hlt. rewrite <- Hrs. unfold price_reasons, price_of.
    rewrite Hp, Hpc.
    assert (Hb : Qltb 0 (p - pc) = true) by (apply Qltb_lt; lra).
    rewrite Hb. reflexivity. }
  split.
  { intros f z zf Ef Hz Hzf Hlt.
    apply parses_to_truthy in Hz as (s & Hs & Hps).
    apply parses_to_truthy in Hzf as (sf & Hsf & Hpsf).
    rewrite Ef in Ht. simpl in Ht. unfold duration_reasons in Ht.
    rewrite Hs, Hsf, Hps, Hpsf in Ht. unfold num_gt in Ht. simpl in Ht.
    assert (Hb : (zf <? z) = true) by (apply Z.ltb_lt; exact Hlt).
    rewrite Hb in Ht. simpl in Ht. injection Ht as <-.
    exists (price_reasons opt c). rewrite <- Hrs.
    destruct (price_reasons opt c); reflexivity. }
  intros Hprice Htime. rewrite <- Hrs.
  assert (Ep : price_reasons opt c = []).
  { unfold price_reasons, price_of. destruct (price opt) as [p|] eqn:Hp; [|reflexivity].
    unfold has_price in Hcp. destruct (price c) as [pc|] eqn:Hpc; [|discriminate].
    specialize (Hprice p pc eq_refl eq_refl).
    assert (Hb : Qltb 0 (p - pc) = false) by (apply Qltb_ge; lra).
    now rewrite Hb. }
  assert (Et : timed = []).
  { unfold duration_reasons in Ht.
    destruct (truthy_duration opt) as [s|] eqn:Hs; [|now injection Ht].
    destruct (fastest a) as [f|] eqn:Ef; simpl in Ht; [|now injection Ht].
    destruct (has_duration_truthy _ (Hfd f eq_refl)) as (fd & zf & Hfdt & _ & Hpf).
    rewrite Hfdt, Hpf in Ht.
    assert (Hfz : parses_to (snd f) zf).
    { apply parses_to_has_duration. split; [now apply Hfd|].
      unfold minutes_of. now rewrite Hfdt. }
    destruct (parse_cases s) as [[_ E]|[_ (z & _ & E)]]; rewrite E in Ht.
    - unfold num_gt in Ht. simpl in Ht. discriminate.
    - assert (Hz : parses_to opt z).
      { apply parses_to_has_duration. unfold has_duration, minutes_of.
        rewrite Hs, E. split; reflexivity. }
      specialize (Htime f z zf eq_refl Hz Hfz).
      unfold num_gt in Ht. simpl in Ht.
      assert (Hb : (zf <? z) = false) by (apply Z.ltb_ge; exact Htime).
      rewrite Hb in Ht. now injection Ht. }
  now rewrite Ep, Et.
Qed.

Lemma discarded_reasons_shape_witness :
  d_reasons (mkDiscarded 2 train_95
    ["50.00 EUR more expensive than cheapest"; "5h 30m slower than fastest"]) <> [].
Proof.
  destruct (discarded_reasons_shape [bus_45; flight_120; train_95] scenario_result
              (mkDiscarded 2 train_95
                 ["50.00 EUR more expensive than cheapest"; "5h 30m slower than fastest"]))
    as (Hne & _).
  - vm_compute. reflexivity.
  - now left.
  - exact Hne.
Defined.

(** X4: the order of the options only settles ties.  If one list is a
    rearrangement of another, the cheapest selected from each have the
    same price, the fastest selected from each have the same duration in
    minutes, and one list has a cheapest (a fastest) exactly when the
    other has. *)
Theorem selection_values_ignore_order (options options' : list offer) :
  Permutation options options' ->
  (forall c c' p p',
     select_cheapest options = Some c -> select_cheapest options' = Some c' ->
     price (snd c) = Some p -> price (snd c') = Some p' -> (p == p')%Q) /\
  (forall f f' z z',
     select_fastest options = Some f -> select_fastest options' = Some f' ->
     parses_to (snd f) z -> parses_to (snd f') z' -> z = z') /\
  (select_cheapest options = None <-> select_cheapest options' = None) /\
  (select_fastest options = None <-> select_fastest options' = None).
Proof.
  intros Hperm.
  assert (Hle : forall l l', Permutation l l' ->
            forall c c' p p',
              select_cheapest l = Some c -> select_cheapest l' = Some c' ->
              price (snd c) = Some p -> price (snd c') = Some p' -> (p <= p')%Q).
  { intros l l' Hp c c' p p' Hc Hc' Ep Ep'.
    destruct (select_cheapest_in _ _ Hc) as [Hn Hpr].
    destruct (select_cheapest_in _ _ Hc') as [Hn' _].
    destruct (select_cheapest_spec l) as (i & o & q & Hsel & _ & Hq & Hmin & _).
    { exists (snd c). split; [eapply nth_error_In; exact Hn | exact Hpr]. }
    rewrite Hc in Hsel. injection Hsel as ->. simpl in Ep. rewrite Hq in Ep.
    injection Ep as <-.
    apply nth_error_In in Hn'. apply (Permutation_in _ (Permutation_sym Hp)) in Hn'.
    destruct (In_nth_error _ _ Hn') as [j Hj]. exact (Hmin j (snd c') p' Hj Ep'). }
  assert (Hlz : forall l l', Permutation l l' ->
            forall f f' z z',
              select_fastest l = Some f -> select_fastest l' = Some f' ->
              parses_to (snd f) z -> parses_to (snd f') z' -> z <= z').
  { intros l l' Hp f f' z z' Hf Hf' Ez Ez'.
    destruct (select_fastest_in _ _ Hf) as [Hn Hd].
    destruct (select_fastest_in _ _ Hf') as [Hn' _].
    destruct (select_fastest_spec l) as (i & o & q & Hsel & _ & Hq & Hmin & _).
    { exists (snd f). split; [eapply nth_error_In; exact Hn | exact Hd]. }
    rewrite Hf in Hsel. injection Hsel as ->. simpl in Ez.
    assert (q = z).
    { apply parses_to_has_duration in Hq as [_ Hq].
      apply parses_to_has_duration in Ez as [_ Ez]. congruence. }
    subst q.
    apply nth_error_In in Hn'. apply (Permutation_in _ (Permutation_sym Hp)) in Hn'.
    destruct (In_nth_error _ _ Hn') as [j Hj]. exact (Hmin j (snd f') z' Hj Ez'). }
  assert (Hnone : forall l l', Permutation l l' ->
            select_cheapest l = None -> select_cheapest l' = None).
  { intros l l' Hp Hn. destruct (select_cheapest l') as [c'|] eqn:E; [|reflexivity].
    destruct (select_cheapest_in _ _ E) as [Hin Hpr].
    apply nth_error_In in Hin. apply (Permutation_in _ (Permutation_sym Hp)) in Hin.
    destruct (select_cheapest_spec l) as (i & o & q & Hsel & _); [eauto | congruence]. }
  assert (Hnonef : forall l l', Permutation l l' ->
            select_fastest l = None -> select_fastest l' = None).
  { intros l l' Hp Hn. destruct (select_fastest l') as [f'|] eqn:E; [|reflexivity].
    destruct (select_fastest_in _ _ E) as [Hin Hd].
    apply nth_error_In in Hin. apply (Permutation_in _ (Permutation_sym Hp)) in Hin.
    destruct (select_fastest_spec l) as (i & o & q & Hsel & _); [eauto | congruence]. }
  split; [|split; [|split]].
  - intros c c' p p' Hc Hc' Ep Ep'. apply Qle_antisym.
    + exact (Hle _ _ Hperm c c' p p' Hc Hc' Ep Ep').
    + exact (Hle _ _ (Permutation_sym Hperm) c' c p' p Hc' Hc Ep' Ep).
  - intros f f' z z' Hf Hf' Ez Ez'.
    pose proof (Hlz _ _ Hperm f f' z z' Hf Hf' Ez Ez').
    pose proof (Hlz _ _ (Permutation_sym Hperm) f' f z' z Hf' Hf Ez' Ez). lia.
  - split; [apply Hnone; exact Hperm | apply Hnone; exact (Permutation_sym Hperm)].
  - split; [apply Hnonef; exact Hperm | apply Hnonef; exact (Permutation_sym Hperm)].
Qed.

Lemma selection_values_ignore_order_witness :
  select_cheapest [train_95; flight_120; bus_45] = Some (2%nat, bus_45) /\
  (price_of bus_45 == price_of bus_45)%Q.
Proof.
  split; [reflexivity|].
  apply (proj1 (selection_values_ignore_order [bus_45; flight_120; train_95]
                  [train_95; flight_120; bus_45]
                  (Permutation_sym (Permutation_rev [train_95; flight_120; bus_45])))
           (0%nat, bus_45) (2%nat, bus_45)); reflexivity.
Defined.

(** * Further properties of the optimiser *)

Lemma filter_split {A : Type} (f : A -> bool) (l : list A) :
  forall l1 b l2,
    filter f l = (l1 ++ b :: l2)%list ->
    exists before after,
      l = (before ++ b :: after)%list /\ filter f before = l1 /\ filter f after = l2.
Proof.
  induction l as [|x l IH]; intros l1 b l2 H; simpl in H.
  - destruct l1; discriminate.
  - destruct (f x) eqn:Hx.
    + destruct l1 as [|y l1]; simpl in H; injection H as -> H.
      * exists [], l. simpl. auto.
      * destruct (IH _ _ _ H) as (before & after & -> & H1 & H2).
        exists (y :: before), after. simpl. rewrite Hx, H1. auto.
    + destruct (IH _ _ _ H) as (before & after & -> & H1 & H2).
      exists (x :: before), after. simpl. rewrite Hx. auto.
Qed.

(** X5: the option that represents a leg.  A leg has none exactly when
    no option of the reply has a price that is present and not zero;
    otherwise it is an option of the reply with such a price, no option
    with such a price is cheaper, and every such option placed before it
    is strictly more expensive.  Durations take no part. *)
Theorem leg_choice_first_cheapest (options : list offer) :
  (pick_best_leg options = None <->
   forall o, In o options -> truthy_price o = false) /\
  (forall b, pick_best_leg options = Some b ->
     truthy_price b = true /\
     (forall o, In o options -> truthy_price o = true ->
                (price_of b <= price_of o)%Q) /\
     exists before after,
       options = (before ++ b :: after)%list /\
       forall o, In o before -> truthy_price o = true -> (price_of b < price_of o)%Q).
Proof.
  unfold pick_best_leg. split.
  - split.
    + intros H o Hin. destruct (truthy_price o) eqn:Ho; [|reflexivity].
      assert (Hf : In o (filter truthy_price options)) by (apply filter_In; auto).
      destruct (filter truthy_price options); [destruct Hf | discriminate].
    + intros H. destruct (filter truthy_price options) as [|x l] eqn:E; [reflexivity|].
      assert (Hx : In x (filter truthy_price options)) by (rewrite E; now left).
      apply filter_In in Hx as [Hx Ht]. rewrite (H x Hx) in Ht. discriminate.
  - intros b Hb.
    destruct (py_min_first price_of Qltb (fun _ => True))
      with (l := filter truthy_price options)
      as (l1 & m & l2 & Hm & Hsplit & _ & Hbefore & Hafter).
    + intros x y z _ _ _ Hxy Hyz. apply Qltb_lt in Hxy, Hyz. apply Qltb_lt.
      eapply Qlt_trans; eassumption.
    + intros x y z _ _ _ Hxy Hzy. apply Qltb_lt in Hxy. apply Qltb_ge in Hzy.
      apply Qltb_lt. eapply Qlt_le_trans; eassumption.
    + apply Forall_forall. intros; exact I.
    + intros E. rewrite E in Hb. discriminate.
    + rewrite Hm in Hb. injection Hb as ->.
      destruct (filter_split _ _ _ _ _ Hsplit) as (before & after & Ho & E1 & E2).
      assert (Hbt : truthy_price b = true).
      { assert (Hin : In b (filter truthy_price options))
          by (rewrite Hsplit; apply in_or_app; right; now left).
        now apply filter_In in Hin. }
      rewrite Forall_forall in Hbefore, Hafter.
      split; [exact Hbt|]. split.
      * intros o Hin Ho'. assert (Hf : In o (filter truthy_price options))
          by (apply filter_In; auto).
        rewrite Hsplit in Hf. apply in_app_or in Hf as [Hf|[<-|Hf]].
        -- apply Qlt_le_weak. apply Qltb_lt. now apply Hbefore.
        -- apply Qle_refl.
        -- apply Qltb_ge. now apply Hafter.
      * exists before, after. split; [exact Ho|]. intros o Hin Ho'.
        apply Qltb_lt. apply Hbefore. rewrite <- E1. apply filter_In. auto.
Qed.

Lemma leg_choice_first_cheapest_witness :
  truthy_price paid_train = true /\
  (forall o, In o [free_shuttle; paid_train] -> truthy_price o = true ->
             (price_of paid_train <= price_of o)%Q).
Proof.
  destruct (proj2 (leg_choice_first_cheapest [free_shuttle; paid_train]) paid_train eq_refl)
    as (H1 & H2 & _).
  split; [exact H1 | exact H2].
Defined.

Section RouteLegs.
Variable search_all_transport : string -> string -> string -> list offer.
Variable next_day : string -> option string.

Lemma walk_legs_structure (cs : list string) :
  forall date ls p m ls' p' m',
    walk_legs search_all_transport next_day cs date ls p m = Return (Some (ls', p', m')) ->
    exists new,
      ls' = (ls ++ new)%list /\
      List.length new = (List.length cs - 1)%nat /\
      p' = fold_left add_leg_price new p /\
      forall i l, nth_error new i = Some l ->
        nth_error cs i = Some (leg_from l) /\
        nth_error cs (S i) = Some (leg_to l) /\
        advance_days next_day i date = Some (leg_date l) /\
        next_day (leg_date l) <> None /\
        pick_best_leg (search_all_transport (leg_from l) (leg_to l) (leg_date l))
          = Some (leg_option l).
Proof.
  induction cs as [|origin rest IH]; intros date ls p m ls' p' m' H.
  - injection H as <- <- <-. exists []. rewrite app_nil_r.
    split; [reflexivity|]. split; [reflexivity|]. split; [reflexivity|].
    intros i l Hi. destruct i; discriminate.
  - destruct rest as [|destination rest].
    + injection H as <- <- <-. exists []. rewrite app_nil_r.
      split; [reflexivity|]. split; [reflexivity|]. split; [reflexivity|].
    intros i l Hi. destruct i; discriminate.
    + rewrite walk_legs_step in H.
      destruct (pick_best_leg _) as [best|] eqn:Hbest; [|discriminate].
      destruct (leg_minutes best) as [d|]; [|discriminate].
      unfold advance in H.
      destruct (next_day date) as [date'|] eqn:Hnext; [|discriminate].
      simpl in H. apply IH in H as (new & -> & Hlen & -> & Hlegs).
      exists (mkLeg origin destination date best :: new).
      split; [now rewrite <- app_assoc|].
      split; [simpl in *; lia|].
      split; [reflexivity|].
      intros i l Hi. destruct i as [|j]; simpl in Hi.
      * injection Hi as <-. simpl. rewrite Hnext.
        repeat split; [discriminate | exact Hbest].
      * destruct (Hlegs j l Hi) as (H1 & H2 & H3 & H4 & H5).
        simpl. rewrite Hnext. auto.
Qed.

(** X6: the legs of a valid route follow its order of cities.  There is
    one leg less than cities; leg [i] goes from city [i] to city [i+1]
    and is searched at the departure date advanced by [i] days, each
    advance having succeeded, the one after the last leg included; its
    option is the one chosen from the reply of that search; and the
    total price is the sum of the prices of the chosen options, added in
    order from 0. *)
Theorem route_legs_follow_order (departure_date : string) (perm : list string)
  (r : complete_route) :
  evaluate_permutation search_all_transport next_day departure_date perm
    = Return (Some r) ->
  route r = perm /\
  List.length (legs r) = (List.length perm - 1)%nat /\
  total_price r = fold_left add_leg_price (legs r) 0%Q /\
  forall i l, nth_error (legs r) i = Some l ->
    nth_error perm i = Some (leg_from l) /\
    nth_error perm (S i) = Some (leg_to l) /\
    advance_days next_day i departure_date = Some (leg_date l) /\
    next_day (leg_date l) <> None /\
    pick_best_leg (search_all_transport (leg_from l) (leg_to l) (leg_date l))
      = Some (leg_option l).
Proof.
  unfold evaluate_permutation. intros H.
  destruct (walk_legs _ _ perm departure_date [] 0%Q (Int 0)) as [[[[ls p] m]|]|] eqn:Hw;
    try discriminate.
  simpl in H. injection H as <-. simpl.
  apply walk_legs_structure in Hw as (new & -> & Hlen & -> & Hlegs).
  simpl. auto.
Qed.
End RouteLegs.

Lemma route_legs_follow_order_witness :
  List.length (legs paris_madrid_by_coach) = 1%nat /\
  total_price paris_madrid_by_coach
  = fold_left add_leg_price (legs paris_madrid_by_coach) 0%Q.
Proof.
  destruct (route_legs_follow_order coach_or_ferry mid_november "2025-11-15"
              ["Paris"; "Madrid"] paris_madrid_by_coach eq_refl)
    as (_ & H1 & H2 & _).
  split; [exact H1 | exact H2].
Defined.

Section NoValidRoutes.
Variable search_all_transport : string -> string -> string -> list offer.
Variable next_day : string -> option string.

Lemma collect_routes_nil (date : string) (perms : list (list string)) :
  collect_routes search_all_transport next_day date perms = Return [] <->
  forall perm, In perm perms ->
    evaluate_permutation search_all_transport next_day date perm = Return None.
Proof.
  induction perms as [|q perms IH]; simpl.
  - split; [intros _ perm [] | reflexivity].
  - split.
    + intros H perm Hin.
      destruct (evaluate_permutation _ _ date q) as [rq|] eqn:Hq; [|discriminate].
      destruct (collect_routes _ _ date perms) as [more|]; [|discriminate].
      simpl in H. destruct rq as [cr|]; [discriminate|].
      injection H as ->. destruct Hin as [<-|Hin]; [exact Hq|].
      now apply IH.
    + intros H. rewrite (H q (or_introl eq_refl)). simpl.
      rewrite (proj2 IH); [reflexivity|]. intros perm Hin. apply H. now right.
Qed.

Lemma optimize_body_no_routes (cities : list string) (date : string) :
  optimize_body search_all_transport next_day cities date = Return NoValidRoutes <->
  collect_routes search_all_transport next_day date (permutations cities) = Return [].
Proof.
  unfold optimize_body.
  destruct (collect_routes _ _ date (permutations cities)) as [routes|]; simpl.
  - destruct routes as [|r rs].
    + simpl. tauto.
    + simpl. split; [|discriminate].
      destruct (rank_routes _ _ _); simpl; discriminate.
  - split; discriminate.
Qed.

Lemma orderings_head {A : Type} (n : nat) : forall l : list A,
  List.length l = n -> exists rest, orderings n l = l :: rest.
Proof.
  induction n as [|n IH]; intros l Hl.
  - destruct l; [|discriminate]. now exists [].
  - destruct l as [|x l]; [discriminate|]. injection Hl as Hl.
    destruct (IH l Hl) as [rest E]. cbn [orderings selections flat_map].
    simpl fst. simpl snd. rewrite E. simpl. eexists. reflexivity.
Qed.

(** X7: the optimiser answers "no valid routes" exactly when it was
    given two cities or more and every order of them is dropped, each
    walk having ended at a leg without a priced option before anything
    raised. *)
Theorem no_valid_routes_condition (cities : list string) (departure_date : string) :
  optimize_multi_city_route search_all_transport next_day (Cities cities) departure_date
    = NoValidRoutes <->
  (2 <= List.length cities)%nat /\
  forall perm, In perm (permutations cities) ->
    evaluate_permutation search_all_transport next_day departure_date perm = Return None.
Proof.
  unfold optimize_multi_city_route.
  destruct (List.length cities <? 2)%nat eqn:Hlen.
  - apply Nat.ltb_lt in Hlen. split; [discriminate | intros [H _]; lia].
  - apply Nat.ltb_ge in Hlen. rewrite <- collect_routes_nil, <- optimize_body_no_routes.
    destruct (optimize_body _ _ cities departure_date) as [res|e].
    + split; [intros ->; auto | intros [_ E]; now injection E].
    + split; [discriminate | intros [_ E]; discriminate].
Qed.

(** X8: the departure date is read only after a leg has found a priced
    option.  When no search ever returns one, two cities or more give
    "no valid routes" whatever the date is, well-formed or not; when the
    date cannot be advanced and the first leg of the cities in the given
    order has a priced option whose duration is not [null], the whole
    optimisation fails on the ValueError of the date. *)
Theorem departure_date_read_after_priced_leg (cities : list string)
  (departure_date : string) :
  (2 <= List.length cities)%nat ->
  ((forall origin destination date,
      pick_best_leg (search_all_transport origin destination date) = None) ->
   optimize_multi_city_route search_all_transport next_day (Cities cities) departure_date
     = NoValidRoutes) /\
  (forall first second best,
     nth_error cities 0 = Some first -> nth_error cities 1 = Some second ->
     pick_best_leg (search_all_transport first second departure_date) = Some best ->
     duration best <> DurationNull ->
     next_day departure_date = None ->
     optimize_multi_city_route search_all_transport next_day (Cities cities) departure_date
       = RouteOptimizationFailed ValueError).
Proof.
  intros Hlen. split.
  - intros Hnone. apply no_valid_routes_condition. split; [exact Hlen|].
    intros perm Hin. unfold permutations in Hin.
    apply orderings_perm in Hin; [|reflexivity].
    apply Permutation_length in Hin.
    destruct perm as [|a [|b perm]]; simpl in Hin; try lia.
    unfold evaluate_permutation. rewrite walk_legs_step, Hnone. reflexivity.
  - intros first second best H0 H1 Hbest Hdur Hdate.
    unfold optimize_multi_city_route.
    assert (E : (List.length cities <? 2)%nat = false) by (apply Nat.ltb_ge; exact Hlen).
    rewrite E. unfold optimize_body, permutations.
    destruct (orderings_head (List.length cities) cities eq_refl) as [rest ->].
    destruct cities as [|a [|b cs]]; simpl in H0, H1; try discriminate.
    injection H0 as ->. injection H1 as ->.
    cbn [collect_routes]. unfold evaluate_permutation.
    rewrite walk_legs_step, Hbest.
    unfold leg_minutes, advance. rewrite Hdate.
    destruct (duration best); try congruence; reflexivity.
Qed.
End NoValidRoutes.

Lemma no_valid_routes_condition_witness :
  (2 <= List.length ["Paris"; "Madrid"])%nat /\
  forall perm, In perm (permutations ["Paris"; "Madrid"]) ->
    evaluate_permutation shuttle_only mid_november "2025-11-15" perm = Return None.
Proof.
  apply (proj1 (no_valid_routes_condition shuttle_only mid_november
                  ["Paris"; "Madrid"] "2025-11-15")).
  vm_compute. reflexivity.
Defined.

Lemma departure_date_read_after_priced_leg_witness :
  optimize_multi_city_route shuttle_only mid_november (Cities ["Paris"; "Madrid"])
    "next Friday" = NoValidRoutes /\
  optimize_multi_city_route coach_or_ferry mid_november (Cities ["Paris"; "Madrid"])
    "next Friday" = RouteOptimizationFailed ValueError.
Proof.
  split.
  - apply (proj1 (departure_date_read_after_priced_leg shuttle_only mid_november
                    ["Paris"; "Madrid"] "next Friday" (le_n 2))).
    intros origin destination date. reflexivity.
  - apply (proj2 (departure_date_read_after_priced_leg coach_or_ferry mid_november
                    ["Paris"; "Madrid"] "next Friday" (le_n 2))
             "Paris" "Madrid" unscheduled_coach);
      (reflexivity || discriminate).
Defined.

Lemma num_lt_asym (a b : num) : num_lt a b = true -> num_lt b a = false.
Proof.
  destruct a, b; simpl; try reflexivity; try discriminate.
  rewrite Z.ltb_lt, Z.ltb_ge. lia.
Qed.

Lemma cities_eqb_eq (a : list string) : forall b, cities_eqb a b = true <-> a = b.
Proof.
  induction a as [|x a IH]; intros [|y b]; simpl; try (split; (reflexivity || discriminate)).
  rewrite andb_true_iff, String.eqb_eq, IH. split.
  - intros [-> ->]. reflexivity.
  - intros E. injection E as -> ->. auto.
Qed.

Lemma route_reasons_nonempty (r c f : complete_route) (rs : list string) :
  route_reasons r c f = Return rs -> rs <> [].
Proof.
  unfold route_reasons.
  destruct (if num_gt _ _ then _ else _) as [timed|]; simpl; [|discriminate].
  intros E. injection E as <-.
  destruct ((if Qltb _ _ then _ else _) ++ timed)%list; discriminate.
Qed.

Lemma build_discarded_routes_ids (ids : list nat) (c f : complete_route)
  (routes : list complete_route) :
  forall (k : nat) (entries : list discarded_route),
    build_discarded_routes ids c f (enumerate_from k routes) = Return entries ->
    map dr_id entries
      = filter (fun i => negb (existsb (Nat.eqb i) ids)) (seq k (List.length routes)) /\
    Forall (fun d => dr_reasons d <> [] /\ (k <= dr_id d)%nat /\
                     exists r, nth_error routes (dr_id d - k) = Some r /\
                               dr_route d = route r /\
                               dr_total_price d = total_price r) entries.
Proof.
  induction routes as [|r routes IH]; intros k entries H; simpl in H.
  - injection H as <-. split; [reflexivity | constructor].
  - assert (Hshift : forall more,
              Forall (fun d => dr_reasons d <> [] /\ (S k <= dr_id d)%nat /\
                        exists x, nth_error routes (dr_id d - S k) = Some x /\
                                  dr_route d = route x /\
                                  dr_total_price d = total_price x) more ->
              Forall (fun d => dr_reasons d <> [] /\ (k <= dr_id d)%nat /\
                        exists x, nth_error (r :: routes) (dr_id d - k) = Some x /\
                                  dr_route d = route x /\
                                  dr_total_price d = total_price x) more).
    { intros more Hm. eapply Forall_impl; [|exact Hm].
      intros d (Hne & Hk & x & Hx & Hr & Hp). split; [exact Hne|]. split; [lia|].
      exists x. replace (dr_id d - k)%nat with (S (dr_id d - S k)) by lia. auto. }
    simpl. destruct (existsb (Nat.eqb k) ids) eqn:Hrec; simpl.
    + destruct (IH (S k) entries H) as [Hids Hall]. split; [exact Hids | now apply Hshift].
    + destruct (route_reasons r c f) as [reasons|] eqn:Hr; [|discriminate].
      destruct (build_discarded_routes _ _ _ (enumerate_from (S k) routes)) as [more|] eqn:Hm;
        [|discriminate].
      simpl in H. injection H as <-.
      destruct (IH (S k) more Hm) as [Hids Hall]. split.
      * simpl. now rewrite Hids.
      * constructor; [|now apply Hshift]. simpl.
        split; [exact (route_reasons_nonempty _ _ _ _ Hr)|]. split; [lia|].
        exists r. rewrite Nat.sub_diag. auto.
Qed.

(** X9: an optimisation that is returned ranks the valid routes.  The
    complete routes are rearrangements of the cities, between one and n!
    of them; the cheapest route is one of them and none has a lower
    total price, the fastest is one of them and none has a lower total
    duration; the discarded routes are, in order and once each, exactly
    the positions other than those two, each with the cities and total
    price of the route found there and at least one reason; and
    [same_route] is raised exactly when both selected routes visit the
    cities in the same order. *)
Theorem returned_optimization_ranking
  (search_all_transport : string -> string -> string -> list offer)
  (next_day : string -> option string)
  (cities : list string) (departure_date : string) (o : optimization) :
  optimize_multi_city_route search_all_transport next_day (Cities cities) departure_date
    = Optimization o ->
  exists routes,
    collect_routes search_all_transport next_day departure_date (permutations cities)
      = Return routes /\
    total_routes_analyzed o = List.length routes /\
    (1 <= List.length routes <= fact (List.length cities))%nat /\
    nth_error routes (fst (cheapest_route o)) = Some (snd (cheapest_route o)) /\
    nth_error routes (fst (fastest_route o)) = Some (snd (fastest_route o)) /\
    (forall r, In r routes ->
       Permutation cities (route r) /\
       (total_price (snd (cheapest_route o)) <= total_price r)%Q /\
       num_lt (total_duration_minutes r)
              (total_duration_minutes (snd (fastest_route o))) = false) /\
    map dr_id (discarded_routes o)
      = filter (fun i => negb (existsb (Nat.eqb i)
                                 [fst (cheapest_route o); fst (fastest_route o)]))
          (seq 0 (List.length routes)) /\
    Forall (fun d => dr_reasons d <> [] /\
                     exists r, nth_error routes (dr_id d) = Some r /\
                               dr_route d = route r /\
                               dr_total_price d = total_price r)
      (discarded_routes o) /\
    (same_route o = true <->
     route (snd (cheapest_route o)) = route (snd (fastest_route o))).
Proof.
  intros Ho. unfold optimize_multi_city_route in Ho.
  destruct (List.length cities <? 2)%nat; [discriminate|].
  unfold optimize_body in Ho.
  destruct (collect_routes _ _ _ _) as [routes|] eqn:Hc; simpl in Ho; [|discriminate].
  destruct (py_min _ Qltb _) as [csel|] eqn:Hcs; [|discriminate].
  destruct (py_min _ num_lt _) as [fsel|] eqn:Hfs; [|discriminate].
  unfold rank_routes in Ho.
  destruct (build_discarded_routes _ _ _ _) as [entries|] eqn:Hb; simpl in Ho;
    [|discriminate].
  injection Ho as <-. simpl.
  assert (Hnn : Forall (fun x => nonneg (total_duration_minutes x)) routes).
  { apply Forall_forall. intros x Hx.
    destruct (collect_routes_sound _ _ _ _ _ _ Hc Hx) as (q & _ & Hq).
    exact (route_total_nonneg _ _ _ _ _ Hq). }
  assert (Hperm : forall r, In r routes -> Permutation cities (route r)).
  { intros r Hr. destruct (collect_routes_sound _ _ _ _ _ _ Hc Hr) as (q & Hq & He).
    apply (route_legs_follow_order search_all_transport next_day) in He as [-> _].
    unfold permutations in Hq. now apply orderings_perm in Hq. }
  exists routes. split; [reflexivity|]. split; [reflexivity|].
  pose proof (py_min_in _ _ _ _ Hcs) as Hcin. pose proof (py_min_in _ _ _ _ Hfs) as Hfin.
  destruct csel as [ci cr], fsel as [fi fr].
  apply in_enumerate in Hcin, Hfin. simpl.
  split.
  { split.
    - apply nth_error_In in Hcin. destruct routes; [destruct Hcin | simpl; lia].
    - apply collect_routes_length in Hc. unfold permutations in Hc.
      now rewrite orderings_length in Hc. }
  split; [exact Hcin|]. split; [exact Hfin|].
  split.
  { intros r Hr. split; [now apply Hperm|].
    destruct (In_nth_error _ _ Hr) as [i Hi]. apply in_enumerate in Hi.
    split.
    - destruct (py_min_first (fun ir : nat * complete_route => total_price (snd ir)) Qltb
                  (fun _ => True)) with (l := enumerate routes)
        as (l1 & m & l2 & Hm & Hsplit & _ & Hbefore & Hafter).
      + intros x y z _ _ _ Hxy Hyz. apply Qltb_lt in Hxy, Hyz. apply Qltb_lt.
        eapply Qlt_trans; eassumption.
      + intros x y z _ _ _ Hxy Hzy. apply Qltb_lt in Hxy. apply Qltb_ge in Hzy.
        apply Qltb_lt. eapply Qlt_le_trans; eassumption.
      + apply Forall_forall. intros; exact I.
      + intros E. rewrite E in Hi. exact Hi.
      + rewrite Hm in Hcs. injection Hcs as ->.
        rewrite Forall_forall in Hbefore, Hafter.
        rewrite Hsplit in Hi. apply in_app_or in Hi as [Hi|[E|Hi]].
        * apply Qlt_le_weak. apply Qltb_lt. exact (Hbefore _ Hi).
        * injection E as _ <-. apply Qle_refl.
        * apply Qltb_ge. exact (Hafter _ Hi).
    - destruct (py_min_first (fun ir : nat * complete_route => total_duration_minutes (snd ir))
                  num_lt (fun ir => nonneg (total_duration_minutes (snd ir))))
        with (l := enumerate routes)
        as (l1 & m & l2 & Hm & Hsplit & _ & Hbefore & Hafter).
      + intros a b c Pa Pb Pc.
        destruct (total_duration_minutes (snd a)), (total_duration_minutes (snd b)),
          (total_duration_minutes (snd c)); simpl in *; try tauto; try discriminate.
        rewrite !Z.ltb_lt. lia.
      + intros a b c Pa Pb Pc.
        destruct (total_duration_minutes (snd a)), (total_duration_minutes (snd b)),
          (total_duration_minutes (snd c)); simpl in *; try tauto; try discriminate.
        rewrite !Z.ltb_lt, Z.ltb_ge. lia.
      + apply Forall_forall. intros [j x] Hx. apply in_enumerate in Hx.
        apply nth_error_In in Hx. rewrite Forall_forall in Hnn. simpl. now apply Hnn.
      + intros E. rewrite E in Hi. exact Hi.
      + rewrite Hm in Hfs. injection Hfs as ->.
        rewrite Forall_forall in Hbefore, Hafter.
        rewrite Hsplit in Hi. apply in_app_or in Hi as [Hi|[E|Hi]].
        * apply num_lt_asym. exact (Hbefore _ Hi).
        * injection E as _ <-. destruct (total_duration_minutes fr); simpl; try reflexivity.
          apply Z.ltb_irrefl.
        * exact (Hafter _ Hi). }
  apply build_discarded_routes_ids in Hb as [Hids Hall].
  split; [exact Hids|]. split.
  { eapply Forall_impl; [|exact Hall]. intros d (Hne & _ & r & Hr & H1 & H2).
    split; [exact Hne|]. exists r. rewrite Nat.sub_0_r in Hr. auto. }
  apply cities_eqb_eq.
Qed.

Lemma returned_optimization_ranking_witness :
  exists routes,
    collect_routes paid_everywhere mid_november "2025-11-15"
      (permutations ["Paris"; "Madrid"]) = Return routes /\
    List.length routes = 2%nat.
Proof.
  destruct (returned_optimization_ranking paid_everywhere mid_november
              ["Paris"; "Madrid"] "2025-11-15" paid_both_ways)
    as (routes & Hc & Hn & _).
  - vm_compute. reflexivity.
  - exists routes. split; [exact Hc|]. rewrite <- Hn. reflexivity.
Defined.

(** ** The optimiser: every order is walked *)

Section EveryOrder.
Variable search_all_transport : string -> string -> string -> list offer.
Variable next_day : string -> option string.
Variable cities : list string.

(** Every leg between two of the cities has, at any date, an option with
    a price, whose duration is read as a finite number of minutes. *)
Hypothesis every_leg_priced : forall origin destination date,
  In origin cities -> In destination cities ->
  exists best z,
    pick_best_leg (search_all_transport origin destination date) = Some best /\
    leg_minutes best = Return (Int z).

Lemma walk_legs_total (cs : list string) : forall date ls p z,
  (forall c, In c cs -> In c cities) ->
  (forall k, (k < List.length cs - 1)%nat -> advance_days next_day (S k) date <> None) ->
  exists ls' p' z',
    walk_legs search_all_transport next_day cs date ls p (Int z)
    = Return (Some (ls', p', Int z')).
Proof.
  induction cs as [|origin rest IH]; intros date ls p z Hin Hdays.
  - simpl. eauto.
  - destruct rest as [|destination rest]; [simpl; eauto|].
    rewrite walk_legs_step.
    destruct (every_leg_priced origin destination date) as (best & zb & -> & ->).
    { apply Hin. now left. }
    { apply Hin. right. now left. }
    cbn [bind]. unfold advance.
    pose proof (Hdays 0%nat) as H0. simpl in H0.
    destruct (next_day date) as [date'|] eqn:Hnext.
    2:{ exfalso. apply H0; [lia | reflexivity]. }
    cbn [bind]. cbn [num_add].
    apply IH.
    + intros c Hc. apply Hin. now right.
    + intros k Hk. specialize (Hdays (S k)). simpl in Hdays. rewrite Hnext in Hdays.
      apply Hdays. simpl in *. lia.
Qed.

Lemma evaluate_permutation_total (date : string) (perm : list string) :
  (forall c, In c perm -> In c cities) ->
  (forall k, (k < List.length perm - 1)%nat -> advance_days next_day (S k) date <> None) ->
  exists r z,
    evaluate_permutation search_all_transport next_day date perm = Return (Some r) /\
    route r = perm /\ total_duration_minutes r = Int z.
Proof.
  intros Hin Hdays. unfold evaluate_permutation.
  destruct (walk_legs_total perm date [] 0%Q 0 Hin Hdays) as (ls & p & z & ->).
  simpl. eexists. exists z. split; [reflexivity|]. split; reflexivity.
Qed.

Lemma collect_routes_total (date : string) (perms : list (list string)) :
  (forall perm, In perm perms ->
     (forall c, In c perm -> In c cities) /\
     forall k, (k < List.length perm - 1)%nat -> advance_days next_day (S k) date <> None) ->
  exists routes,
    collect_routes search_all_transport next_day date perms = Return routes /\
    map route routes = perms /\
    Forall (fun r => exists z, total_duration_minutes r = Int z) routes.
Proof.
  induction perms as [|perm perms IH]; intros Hall.
  - exists []. repeat split. constructor.
  - destruct (Hall perm (or_introl eq_refl)) as [Hin Hdays].
    destruct (evaluate_permutation_total date perm Hin Hdays) as (r & z & He & Hr & Hz).
    destruct IH as (routes & Hc & Hmap & Hfin).
    { intros q Hq. apply Hall. now right. }
    exists (r :: routes). simpl. rewrite He, Hc. simpl.
    split; [reflexivity|]. split; [now rewrite Hr, Hmap|].
    constructor; [now exists z | exact Hfin].
Qed.
End EveryOrder.

Lemma route_reasons_finite (r c f : complete_route) (zr zf : Z) :
  total_duration_minutes r = Int zr -> total_duration_minutes f = Int zf ->
  exists rs, route_reasons r c f = Return rs.
Proof.
  intros Hr Hf. unfold route_reasons. rewrite Hr, Hf. simpl.
  unfold num_gt. simpl. destruct (0 <? zr - zf); simpl; eauto.
Qed.

Lemma build_discarded_routes_finite (ids : list nat) (c f : complete_route) (zf : Z)
  (routes : list complete_route) :
  total_duration_minutes f = Int zf ->
  Forall (fun r => exists z, total_duration_minutes r = Int z) routes ->
  forall k, exists entries,
    build_discarded_routes ids c f (enumerate_from k routes) = Return entries.
Proof.
  intros Hf Hall. induction Hall as [|r routes [zr Hr] _ IH]; intros k; simpl.
  - eauto.
  - destruct (IH (S k)) as [more Hmore].
    destruct (existsb (Nat.eqb k) ids); [eauto|].
    destruct (route_reasons_finite r c f zr zf Hr Hf) as [rs ->].
    rewrite Hmore. simpl. eauto.
Qed.

Lemma py_min_some {A K : Type} (key : A -> K) (lt : K -> K -> bool) (l : list A) :
  l <> [] -> exists m, py_min key lt l = Some m.
Proof. destruct l as [|x l]; [congruence|]. simpl. eauto. Qed.

Lemma enumerate_from_length {A : Type} (l : list A) : forall k,
  List.length (enumerate_from k l) = List.length l.
Proof. induction l as [|x l IH]; intros k; simpl; [reflexivity | now rewrite IH]. Qed.



(** * Properties of [search_all_transport] *)

Example search_all_transport_run :
  search_all_transport flights_to_rome trains_to_rome buses_to_rome
    "Paris" "Rome" "2025-11-15"
  = [bus_45; flight_120; free_shuttle; unpriced_train].
Proof. vm_compute. reflexivity. Qed.

Lemma key_lt_trans (a b c : price_key) :
  key_lt a b = true -> key_lt b c = true -> key_lt a c = true.
Proof.
  destruct a, b, c; simpl; try discriminate; try reflexivity.
  rewrite !Qltb_lt. apply Qlt_trans.
Qed.

Lemma key_lt_below (a b c : price_key) :
  key_lt a b = true -> key_lt c b = false -> key_lt a c = true.
Proof.
  destruct a, b, c; simpl; try discriminate; try reflexivity.
  rewrite !Qltb_lt, Qltb_ge. apply Qlt_le_trans.
Qed.

Lemma key_lt_asym (a b : price_key) : key_lt a b = true -> key_lt b a = false.
Proof.
  destruct a, b; simpl; try discriminate; try reflexivity.
  rewrite Qltb_lt, Qltb_ge. apply Qlt_le_weak.
Qed.

Lemma key_ge_trans (a b c : price_key) :
  key_lt b a = false -> key_lt c b = false -> key_lt c a = false.
Proof.
  intros Hab Hbc. destruct (key_lt c a) eqn:E; [|reflexivity].
  rewrite (key_lt_below c a b E Hab) in Hbc. discriminate.
Qed.

Lemma insert_by_price_perm (x : offer) (l : list offer) :
  Permutation (x :: l) (insert_by_price x l).
Proof.
  induction l as [|y l IH]; simpl; [reflexivity|].
  destruct (key_lt (sort_key y) (sort_key x)); [|reflexivity].
  rewrite perm_swap. now constructor.
Qed.

Lemma sort_by_price_perm (l : list offer) : Permutation l (sort_by_price l).
Proof.
  induction l as [|x l IH]; simpl; [constructor|].
  rewrite <- insert_by_price_perm. now constructor.
Qed.

Lemma insert_by_price_sorted (x : offer) (l : list offer) :
  price_sorted l -> price_sorted (insert_by_price x l).
Proof.
  induction 1 as [|y l Hy Hl IH]; simpl.
  - constructor; constructor.
  - destruct (key_lt (sort_key y) (sort_key x)) eqn:E.
    + constructor; [|exact IH].
      apply Forall_forall. intros z Hz.
      apply (Permutation_in _ (Permutation_sym (insert_by_price_perm x l))) in Hz.
      destruct Hz as [<-|Hz].
      * now apply key_lt_asym.
      * rewrite Forall_forall in Hy. now apply Hy.
    + constructor; [|now constructor].
      constructor; [exact E|].
      rewrite Forall_forall in *. intros z Hz.
      apply (key_ge_trans _ (sort_key y)); [exact E | now apply Hy].
Qed.

Lemma sort_by_price_sorted (l : list offer) : price_sorted (sort_by_price l).
Proof.
  induction l as [|x l IH]; simpl; [constructor | now apply insert_by_price_sorted].
Qed.

Lemma key_tie_not_lt (a b k : price_key) :
  key_tie a k = true -> key_tie b k = true -> key_lt a b = false.
Proof.
  unfold key_tie. rewrite !andb_true_iff, !negb_true_iff.
  intros [Hak Hka] [Hbk Hkb].
  destruct (key_lt a b) eqn:E; [|reflexivity].
  rewrite (key_lt_below a b k E Hkb) in Hak. discriminate.
Qed.

Lemma insert_by_price_stable (k : price_key) (x : offer) (l : list offer) :
  filter (fun o => key_tie (sort_key o) k) (insert_by_price x l)
  = filter (fun o => key_tie (sort_key o) k) (x :: l).
Proof.
  induction l as [|y l IH]; [reflexivity|].
  cbn [insert_by_price].
  destruct (key_lt (sort_key y) (sort_key x)) eqn:E; [|reflexivity].
  cbn [filter] in *. rewrite IH.
  destruct (key_tie (sort_key x) k) eqn:Hx; [|reflexivity].
  destruct (key_tie (sort_key y) k) eqn:Hy; [|reflexivity].
  rewrite (key_tie_not_lt _ _ k Hy Hx) in E. discriminate.
Qed.

Lemma sort_by_price_stable (k : price_key) (l : list offer) :
  filter (fun o => key_tie (sort_key o) k) (sort_by_price l)
  = filter (fun o => key_tie (sort_key o) k) l.
Proof.
  induction l as [|x l IH]; [reflexivity|].
  cbn [sort_by_price fold_right]. rewrite insert_by_price_stable.
  cbn [filter]. fold (sort_by_price l). now rewrite IH.
Qed.

Lemma price_sorted_pairs (l : list offer) :
  price_sorted l ->
  forall i j x y, (i < j)%nat -> nth_error l i = Some x -> nth_error l j = Some y ->
                  key_lt (sort_key y) (sort_key x) = false.
Proof.
  induction 1 as [|h l Hh Hl IH]; intros i j x y Hij Hi Hj.
  - destruct i; discriminate.
  - destruct j as [|j]; [lia|]. simpl in Hj. destruct i as [|i]; simpl in Hi.
    + injection Hi as <-. rewrite Forall_forall in Hh. apply Hh.
      eapply nth_error_In; exact Hj.
    + apply (IH i j); [lia | exact Hi | exact Hj].
Qed.

(** X10: the combined reply loses and invents nothing and is sorted by
    price.  Its options are a rearrangement of the flights, trains and
    buses found, a reply without options adding none; no option comes
    after one that is more expensive, an option whose price is missing
    or zero counting as infinitely expensive, so that these come last;
    and options that tie, in particular all those without a usable
    price, keep the order in which they were found (flights, then
    trains, then buses). *)
Theorem search_all_transport_sorted
  (search_flights search_trains search_buses :
     string -> string -> string -> option (list offer))
  (origin destination departure_date : string) :
  let found :=
    (extend_with [] (search_flights origin destination departure_date)
     ++ extend_with [] (search_trains origin destination departure_date)
     ++ extend_with [] (search_buses origin destination departure_date))%list in
  let reply := search_all_transport search_flights search_trains search_buses
                 origin destination departure_date in
  Permutation found reply /\
  List.length reply = List.length found /\
  (forall i j x y, (i < j)%nat -> nth_error reply i = Some x -> nth_error reply j = Some y ->
     key_lt (sort_key y) (sort_key x) = false) /\
  (forall i j x y, (i < j)%nat -> nth_error reply i = Some x -> nth_error reply j = Some y ->
     truthy_price x = false -> truthy_price y = false) /\
  (forall k, filter (fun o => key_tie (sort_key o) k) reply
             = filter (fun o => key_tie (sort_key o) k) found).
Proof.
  intros found reply.
  assert (E : reply = sort_by_price found).
  { unfold reply, found, search_all_transport, extend_with.
    destruct (search_flights _ _ _), (search_trains _ _ _), (search_buses _ _ _);
      simpl; rewrite ?app_nil_r, ?app_assoc; reflexivity. }
  rewrite E.
  assert (Hpairs := price_sorted_pairs _ (sort_by_price_sorted found)).
  split; [apply sort_by_price_perm|].
  split; [symmetry; apply Permutation_length, sort_by_price_perm|].
  split; [exact Hpairs|].
  split; [|intros k; apply sort_by_price_stable].
  intros i j x y Hij Hi Hj Hx. specialize (Hpairs i j x y Hij Hi Hj).
  unfold truthy_price, sort_key in *.
  destruct (price x) as [p|]; destruct (price y) as [q|]; try reflexivity.
  - destruct (Qeq_bool p 0); [|discriminate].
    destruct (Qeq_bool q 0); [reflexivity | discriminate].
  - destruct (Qeq_bool q 0); [reflexivity | discriminate].
Qed.

(** X11: on a reply of [search_all_transport] the optimiser's choice for
    a leg is simply the first option, provided that one has a price that
    is present and not zero; when the first option has none, no option
    has, and the leg invalidates the route. *)
Theorem leg_choice_is_first_of_sorted_reply
  (search_flights search_trains search_buses :
     string -> string -> string -> option (list offer))
  (origin destination departure_date : string) :
  pick_best_leg (search_all_transport search_flights search_trains search_buses
                   origin destination departure_date)
  = match search_all_transport search_flights search_trains search_buses
            origin destination departure_date with
    | first :: _ => if truthy_price first then Some first else None
    | [] => None
    end.
Proof.
  assert (Hs : price_sorted (search_all_transport search_flights search_trains search_buses
                               origin destination departure_date))
    by apply sort_by_price_sorted.
  destruct (search_all_transport _ _ _ _ _ _) as [|first rest]; [reflexivity|].
  inversion Hs as [|? ? Hfirst _]; subst.
  rewrite Forall_forall in Hfirst.
  assert (Hkey : forall o, truthy_price o = true <->
                           exists p, sort_key o = KeyPrice p /\ price_of o = p).
  { intros o. unfold truthy_price, sort_key, price_of. destruct (price o) as [p|].
    - destruct (Qeq_bool p 0); simpl; split; try discriminate; eauto.
      intros (q & E & _). discriminate.
    - split; [discriminate | intros (q & E & _); discriminate]. }
  destruct (truthy_price first) eqn:Hf.
  - destruct (pick_best_leg (first :: rest)) as [b|] eqn:Hb.
    + destruct (proj2 (leg_choice_first_cheapest (first :: rest)) b Hb)
        as (Hbt & _ & before & after & Hsplit & Hbefore).
      destruct before as [|h before]; simpl in Hsplit; injection Hsplit as <- Hrest.
      * reflexivity.
      * exfalso. specialize (Hbefore first (or_introl eq_refl) Hf).
        assert (Hin : In b rest) by (rewrite Hrest; apply in_or_app; right; now left).
        specialize (Hfirst b Hin).
        apply Hkey in Hbt as (pb & Eb & Epb). apply Hkey in Hf as (pf & Ef & Epf).
        rewrite Eb, Ef in Hfirst. simpl in Hfirst. apply Qltb_ge in Hfirst.
        rewrite Epb, Epf in Hbefore. exact (Qlt_not_le _ _ Hbefore Hfirst).
    + exfalso. apply (proj1 (leg_choice_first_cheapest (first :: rest))) with (o := first) in Hb;
        [congruence | now left].
  - apply (proj1 (leg_choice_first_cheapest (first :: rest))).
    intros o [<-|Hin]; [exact Hf|].
    destruct (truthy_price o) eqn:Ho; [|reflexivity].
    specialize (Hfirst o Hin). apply Hkey in Ho as (p & Eo & _).
    assert (Ef : sort_key first = KeyInf).
    { unfold truthy_price in Hf. unfold sort_key. destruct (price first) as [q|]; [|reflexivity].
      apply negb_false_iff in Hf. now rewrite Hf. }
    rewrite Eo, Ef in Hfirst. discriminate.
Qed.

Lemma search_all_transport_sorted_witness :
  Permutation [flight_120; free_shuttle; bus_45; unpriced_train]
    (search_all_transport flights_to_rome trains_to_rome buses_to_rome
       "Paris" "Rome" "2025-11-15") /\
  truthy_price unpriced_train = false.
Proof.
  destruct (search_all_transport_sorted flights_to_rome trains_to_rome buses_to_rome
              "Paris" "Rome" "2025-11-15") as (Hperm & _ & _ & Hlast & _).
  split; [exact Hperm|].
  apply (Hlast 2%nat 3%nat free_shuttle unpriced_train); (lia || reflexivity).
Defined.

(** * Properties of the options the provider clients build *)

Lemma digits_of_uint_acc (d : Decimal.uint) : forall acc : positive,
  int_of_digits_from (Z.pos acc) (NilEmpty.string_of_uint d)
  = Z.pos (Pos.of_uint_acc d acc).
Proof.
  induction d; intros acc; cbn [NilEmpty.string_of_uint int_of_digits_from Pos.of_uint_acc];
    try reflexivity;
    rewrite <- IHd; f_equal;
    match goal with
    | |- context [digit_value ?c] =>
        let v := eval vm_compute in (digit_value c) in
        change (digit_value c) with v
    end; lia.
Qed.

Lemma digits_of_uint (d : Decimal.uint) :
  int_of_digits_from 0 (NilEmpty.string_of_uint d) = Z.of_N (N.of_uint d).
Proof.
  unfold N.of_uint.
  induction d; cbn [NilEmpty.string_of_uint int_of_digits_from Pos.of_uint];
    try reflexivity; try exact IHd;
    cbn [Z.of_N]; rewrite <- digits_of_uint_acc; f_equal.
Qed.

Lemma all_digits_of_uint (d : Decimal.uint) :
  all_digits (NilEmpty.string_of_uint d) = true.
Proof. induction d; simpl; auto. Qed.

Lemma string_of_nonneg_digits (n : Z) : digits (string_of_nonneg n) = true.
Proof.
  unfold string_of_nonneg, NilZero.string_of_uint.
  pose proof (all_digits_of_uint (N.to_uint (Z.to_N n))) as H.
  destruct (N.to_uint (Z.to_N n)); try reflexivity; exact H.
Qed.

Lemma string_of_nonneg_value (n : Z) :
  0 <= n -> int_of_digits (string_of_nonneg n) = n.
Proof.
  intros Hn. unfold string_of_nonneg, int_of_digits.
  pose proof (DecimalN.Unsigned.of_to (Z.to_N n)) as Hround.
  pose proof (digits_of_uint (N.to_uint (Z.to_N n))) as Hd.
  rewrite Hround, Z2N.id in Hd by exact Hn.
  unfold NilZero.string_of_uint.
  destruct (N.to_uint (Z.to_N n)); exact Hd.
Qed.

(** What [f"PT{h}H{m}M"] parses to, for non-negative ints. *)
Lemma parse_iso_hours_minutes (h m : Z) :
  0 <= h -> 0 <= m ->
  parse_iso_duration_to_minutes (iso_hours_minutes h m) = Int (h * 60 + m).
Proof.
  intros Hh Hm. unfold iso_hours_minutes, py_str_int.
  assert (Eh : (h <? 0) = false) by (apply Z.ltb_ge; exact Hh).
  assert (Em : (m <? 0) = false) by (apply Z.ltb_ge; exact Hm).
  rewrite Eh, Em.
  pose proof (parse_grammar (Some (string_of_nonneg h)) (Some (string_of_nonneg m))
                (string_of_nonneg_digits h) (string_of_nonneg_digits m)) as H.
  unfold duration_text, group_text, group_value in H.
  rewrite !string_of_nonneg_value in H by assumption.
  rewrite append_letter in H. exact H.
Qed.

Lemma no_price_no_cheapest (options : list offer) :
  (forall o, In o options -> has_price o = false) -> select_cheapest options = None.
Proof.
  intros Hnone. unfold select_cheapest.
  destruct (options_with_price options) as [|[i o] l] eqn:E; [reflexivity|].
  assert (Hin : In (i, o) (options_with_price options)) by (rewrite E; now left).
  apply filter_In in Hin as [Hin Hp]. apply in_enumerate, nth_error_In in Hin.
  simpl in Hp. rewrite (Hnone o Hin) in Hp. discriminate.
Qed.

(** X12: the options built from SNCF journeys.  A journey of [d >= 0]
    seconds gets the duration text that the engine parses back to
    [d // 60] minutes, the seconds being dropped, and a journey without
    a duration gets 0 minutes.  These options never have a price: a
    non-empty list of them alone is answered "no options with valid
    prices" by the analyser, and none of them ever represents a leg in
    the optimiser. *)
Theorem sncf_options_parse_back (d : Z) (journeys : list (option Z)) :
  0 <= d ->
  parses_to (parse_sncf_journey (Some d)) (d / 60) /\
  parses_to (parse_sncf_journey None) 0 /\
  (forall j, has_price (parse_sncf_journey j) = false) /\
  (journeys <> [] ->
   analyze_best_routes (Options (map parse_sncf_journey journeys))
     = NoOptionsWithValidPrices) /\
  pick_best_leg (map parse_sncf_journey journeys) = None.
Proof.
  intros Hd.
  assert (Hparse : forall x, 0 <= x ->
            parses_to (parse_sncf_journey (Some x)) (x / 60)).
  { intros x Hx. eexists. split; [reflexivity|].
    rewrite parse_iso_hours_minutes.
    - f_equal. rewrite (Z.div_mod x 3600) at 3 by lia.
      replace (3600 * (x / 3600)) with ((x / 3600 * 60) * 60) by lia.
      rewrite Z.div_add_l by lia. reflexivity.
    - apply Z.div_pos; lia.
    - apply Z.div_pos; [|lia]. apply Z.mod_pos_bound. lia. }
  split; [now apply Hparse|].
  split; [exact (Hparse 0 (Z.le_refl 0))|].
  split; [reflexivity|].
  split.
  - intros Hne. unfold analyze_best_routes.
    destruct (map parse_sncf_journey journeys) as [|o os] eqn:E.
    + destruct journeys; [congruence | discriminate].
    + rewrite no_price_no_cheapest; [reflexivity|].
      intros x Hx. rewrite <- E in Hx. apply in_map_iff in Hx as (j & <- & _). reflexivity.
  - apply (proj1 (leg_choice_first_cheapest _)).
    intros o Ho. apply in_map_iff in Ho as (j & <- & _). reflexivity.
Qed.

Lemma sncf_options_parse_back_witness :
  parses_to (parse_sncf_journey (Some 9059)) 150 /\
  analyze_best_routes (Options (map parse_sncf_journey [Some 9059; None]))
    = NoOptionsWithValidPrices.
Proof.
  destruct (sncf_options_parse_back 9059 [Some 9059; None]) as (H1 & _ & _ & H2 & _).
  - lia.
  - split; [exact H1 | apply H2; discriminate].
Defined.

(** X13: the options built from FlixBus trips.  Hours [h >= 0] and
    minutes [m >= 0] give a duration that the engine parses to
    [h * 60 + m] minutes.  A trip whose duration is missing or is not a
    dict gets 0 minutes, so that it parses and, in any list that holds
    it, the fastest selected lasts 0 minutes.  A trip whose price is
    missing or is not a dict gets the price 0: the analyser counts it as
    priced, and when no price of the list is negative the cheapest it
    selects costs 0, while the optimiser never lets such an option
    represent a leg. *)
Theorem flixbus_options_defaults (h m : Z) (price_info : trip_price)
  (options : list offer) :
  0 <= h -> 0 <= m ->
  parses_to (parse_trip price_info (DurationDict (Some h) (Some m))) (h * 60 + m) /\
  parses_to (parse_trip price_info DurationNotDict) 0 /\
  parses_to (parse_trip price_info (DurationDict None None)) 0 /\
  (forall bus,
     bus = parse_trip price_info DurationNotDict \/
     bus = parse_trip price_info (DurationDict None None) ->
     In bus options ->
     exists f, select_fastest options = Some f /\ parses_to (snd f) 0) /\
  (forall duration_info bus,
     bus = parse_trip PriceNotDict duration_info \/
     (exists c, bus = parse_trip (PriceDict None c) duration_info) ->
     price bus = Some 0%Q /\ has_price bus = true /\ truthy_price bus = false /\
     (In bus options ->
      (forall o p, In o options -> price o = Some p -> (0 <= p)%Q) ->
      exists c p, select_cheapest options = Some c /\ price (snd c) = Some p /\
                  (p == 0)%Q)).
Proof.
  intros Hh Hm.
  assert (H0 : forall pi di, di = DurationNotDict \/ di = DurationDict None None ->
                 parses_to (parse_trip pi di) 0).
  { intros pi di [->| ->]; eexists; (split; [reflexivity|]); reflexivity. }
  split.
  { eexists. split; [reflexivity|]. now apply parse_iso_hours_minutes. }
  split; [apply H0; now left|]. split; [apply H0; now right|].
  split.
  - intros bus Hbus Hin.
    assert (Hb : parses_to bus 0).
    { destruct Hbus as [->| ->]; apply H0; auto. }
    destruct (select_fastest_spec options) as (i & o & z & Hsel & Hn & Hz & Hmin & _).
    { exists bus. split; [exact Hin|]. now apply parses_to_has_duration in Hb. }
    destruct (In_nth_error _ _ Hin) as [j Hj].
    pose proof (Hmin j bus 0 Hj Hb) as Hle.
    assert (Hge : 0 <= z).
    { destruct Hz as (s & _ & Hs). pose proof (parse_nonneg s) as Hnn.
      rewrite Hs in Hnn. exact Hnn. }
    exists (i, o). split; [exact Hsel|]. simpl.
    replace 0 with z by lia. exact Hz.
  - intros di bus Hbus.
    assert (Hp : price bus = Some 0%Q).
    { destruct Hbus as [->|[c ->]]; reflexivity. }
    split; [exact Hp|].
    split; [unfold has_price; now rewrite Hp|].
    split; [unfold truthy_price; now rewrite Hp|].
    intros Hin Hpos.
    destruct (select_cheapest_spec options) as (i & o & p & Hsel & Hn & Hpo & Hmin & _).
    { exists bus. split; [exact Hin|]. unfold has_price. now rewrite Hp. }
    destruct (In_nth_error _ _ Hin) as [j Hj].
    exists (i, o), p. split; [exact Hsel|]. split; [exact Hpo|].
    apply Qle_antisym.
    + exact (Hmin j bus 0%Q Hj Hp).
    + apply (Hpos o p); [eapply nth_error_In; exact Hn | exact Hpo].
Qed.

Lemma flixbus_options_defaults_witness :
  parses_to (parse_trip PriceNotDict (DurationDict (Some 8) (Some 45))) (8 * 60 + 45) /\
  parses_to (parse_trip PriceNotDict DurationNotDict) 0.
Proof.
  destruct (flixbus_options_defaults 8 45 PriceNotDict []) as (H1 & H2 & _);
    [lia | lia | split; [exact H1 | exact H2]].
Defined.

(** * Properties of the IATA code lookup *)

Lemma upper_ascii_idempotent (c : ascii) : upper_ascii (upper_ascii c) = upper_ascii c.
Proof. destruct c as [[] [] [] [] [] [] [] []]; reflexivity. Qed.

Lemma upper_idempotent (s : string) : upper (upper s) = upper s.
Proof.
  induction s as [|c s IH]; simpl; [reflexivity|].
  now rewrite upper_ascii_idempotent, IH.
Qed.

Lemma cache_get_set (cache : iata_cache) (key : string) (v : option string) :
  cache_get (cache_set cache key v) key = Some v.
Proof. simpl. now rewrite String.eqb_refl. Qed.

(** X14: a lookup that returns is remembered.  After a call that
    returned a code or [None], other than on a rate-limited request, any
    later call for a name that upper-cases to the same key (the same
    name in another letter case, say) returns the same answer and
    leaves the cache as it is, whatever the API would answer then: no
    request is made. *)
Theorem iata_lookup_memoised (cache cache1 : iata_cache)
  (client client' : string -> locations_reply) (name name' : string)
  (code : option string) :
  get_city_iata_code cache client name = (Code code, cache1) ->
  (cache_get cache (upper name) = None -> client name <> RateLimited) ->
  upper name' = upper name ->
  get_city_iata_code cache1 client' name' = (Code code, cache1).
Proof.
  intros Hcall Hlimit Hkey. unfold get_city_iata_code in *. rewrite Hkey.
  destruct (cache_get cache (upper name)) as [cached|] eqn:Hget.
  - injection Hcall as <- <-. now rewrite Hget.
  - specialize (Hlimit eq_refl).
    destruct (client name) as [[|first others]| |].
    + injection Hcall as <- <-. now rewrite cache_get_set.
    + destruct (first_city (first :: others)) as [[c|]|].
      * injection Hcall as <- <-. now rewrite cache_get_set.
      * discriminate.
      * destruct (iataCode first); [|discriminate].
        injection Hcall as <- <-. now rewrite cache_get_set.
    + congruence.
    + destruct (common_codes (upper name)); injection Hcall as <- <-;
        now rewrite cache_get_set.
Qed.

Lemma iata_lookup_memoised_witness :
  get_city_iata_code [("LYON", Some "LYO")] too_many_requests "lyon"
  = (Code (Some "LYO"), [("LYON", Some "LYO")]).
Proof.
  apply (iata_lookup_memoised [] [("LYON", Some "LYO")] knows_lyon too_many_requests
           "Lyon" "lyon" (Some "LYO")).
  - reflexivity.
  - discriminate.
  - reflexivity.
Defined.

(** X15: failures are remembered, rate limiting is not.  When the name
    is not cached and the request finds no location, or fails otherwise
    than by rate limiting for a name outside the fallback table, the
    lookup answers [None] and every later lookup of that name answers
    [None] without a request, even if the API would then know the city.
    When the request is rate limited the lookup answers [None] and
    leaves the cache untouched, so that the next lookup asks again. *)
Theorem iata_failures_cached_except_rate_limit (cache : iata_cache)
  (client client' : string -> locations_reply) (name : string) :
  cache_get cache (upper name) = None ->
  (client name = LocationsData [] \/
   (client name = OtherResponseError /\ common_codes (upper name) = None) ->
   fst (get_city_iata_code cache client name) = Code None /\
   fst (get_city_iata_code (snd (get_city_iata_code cache client name)) client' name)
     = Code None) /\
  (client name = RateLimited ->
   get_city_iata_code cache client name = (Code None, cache) /\
   get_city_iata_code (snd (get_city_iata_code cache client name)) client' name
     = get_city_iata_code cache client' name).
Proof.
  intros Hmiss. split.
  - intros Hfail.
    assert (E : get_city_iata_code cache client name
                = (Code None, cache_set cache (upper name) None)).
    { unfold get_city_iata_code. rewrite Hmiss.
      destruct Hfail as [->|[-> ->]]; reflexivity. }
    rewrite E. split; [reflexivity|]. simpl snd.
    unfold get_city_iata_code at 1. now rewrite cache_get_set.
  - intros Hlimit.
    assert (E : get_city_iata_code cache client name = (Code None, cache)).
    { unfold get_city_iata_code. now rewrite Hmiss, Hlimit. }
    rewrite E. split; reflexivity.
Qed.

Lemma iata_failures_cached_except_rate_limit_witness :
  fst (get_city_iata_code (snd (get_city_iata_code [] knows_nothing "Lyon")) knows_lyon "Lyon")
    = Code None /\
  get_city_iata_code (snd (get_city_iata_code [] too_many_requests "Lyon")) knows_lyon "Lyon"
    = get_city_iata_code [] knows_lyon "Lyon".
Proof.
  split.
  - apply (proj1 (iata_failures_cached_except_rate_limit [] knows_nothing knows_lyon
                    "Lyon" eq_refl)). now left.
  - apply (proj2 (iata_failures_cached_except_rate_limit [] too_many_requests knows_lyon
                    "Lyon" eq_refl)). reflexivity.
Defined.

Lemma first_city_find (data : list location) :
  first_city data = option_map iataCode (find is_city data).
Proof.
  induction data as [|l data IH]; simpl; [reflexivity|].
  destruct (is_city l); [reflexivity | exact IH].
Qed.

(** X16: which code a fresh lookup chooses.  When the name is not cached
    and the request returns locations that all carry a code, the answer
    is the code of the first location of subtype CITY, wherever it
    stands in the list, and the code of the first location when there is
    no CITY; that code is then cached under the upper-cased name. *)
Theorem iata_lookup_prefers_city (cache : iata_cache)
  (client : string -> locations_reply) (name : string)
  (first : location) (others : list location) :
  cache_get cache (upper name) = None ->
  client name = LocationsData (first :: others) ->
  (forall l, In l (first :: others) -> iataCode l <> None) ->
  let chosen := match find is_city (first :: others) with
                | Some l => l
                | None => first
                end in
  get_city_iata_code cache client name
  = (Code (iataCode chosen), cache_set cache (upper name) (iataCode chosen)) /\
  In chosen (first :: others) /\
  ((exists l, In l (first :: others) /\ is_city l = true) -> is_city chosen = true).
Proof.
  intros Hmiss Hreply Hcodes chosen.
  assert (Hin : In chosen (first :: others)).
  { unfold chosen. destruct (find is_city (first :: others)) as [l|] eqn:E.
    - now apply find_some in E.
    - now left. }
  split; [|split; [exact Hin|]].
  - unfold get_city_iata_code. rewrite Hmiss, Hreply, first_city_find.
    unfold chosen. destruct (find is_city (first :: others)) as [l|] eqn:E; simpl.
    + apply find_some in E as [Hl _]. specialize (Hcodes l Hl).
      destruct (iataCode l); [reflexivity | congruence].
    + specialize (Hcodes first (or_introl eq_refl)).
      destruct (iataCode first); [reflexivity | congruence].
  - intros (l & Hl & Hc). unfold chosen.
    destruct (find is_city (first :: others)) as [l'|] eqn:E.
    + now apply find_some in E.
    + rewrite (find_none _ _ E l Hl) in Hc. discriminate.
Qed.

Lemma iata_lookup_prefers_city_witness :
  get_city_iata_code [] knows_lyon "Lyon"
  = (Code (Some "LYO"), [("LYON", Some "LYO")]).
Proof.
  apply (iata_lookup_prefers_city [] knows_lyon "Lyon"
           (mkLocation (Some "AIRPORT") (Some "LYS"))
           [mkLocation (Some "CITY") (Some "LYO")]).
  - reflexivity.
  - reflexivity.
  - intros l [<-|[<-|[]]]; discriminate.
Defined.

(** X17: the cache only grows.  A lookup never changes or removes a
    binding; it adds at most one, under the upper-cased name and only
    when that key was not bound; and when all keys of the cache are
    upper-case, they still are afterwards. *)
Theorem iata_cache_only_grows (cache : iata_cache)
  (client : string -> locations_reply) (name : string) :
  let cache1 := snd (get_city_iata_code cache client name) in
  (forall key v, cache_get cache key = Some v -> cache_get cache1 key = Some v) /\
  (cache1 = cache \/
   exists v, cache1 = cache_set cache (upper name) v /\
             cache_get cache (upper name) = None) /\
  (Forall (fun kv => upper (fst kv) = fst kv) cache ->
   Forall (fun kv => upper (fst kv) = fst kv) cache1).
Proof.
  intros cache1.
  assert (Hshape : cache1 = cache \/
                   exists v, cache1 = cache_set cache (upper name) v /\
                             cache_get cache (upper name) = None).
  { unfold cache1, get_city_iata_code.
    destruct (cache_get cache (upper name)) as [cached|]; [now left|].
    destruct (client name) as [[|first others]| |].
    - right. now exists None.
    - destruct (first_city (first :: others)) as [[c|]|].
      + right. now exists (Some c).
      + now left.
      + destruct (iataCode first) as [c|]; [right; now exists (Some c) | now left].
    - now left.
    - destruct (common_codes (upper name)) as [c|];
        [right; now exists (Some c) | right; now exists None]. }
  split; [|split; [exact Hshape|]].
  - intros key v Hget. destruct Hshape as [->|(w & -> & Hmiss)]; [exact Hget|].
    simpl. destruct (String.eqb (upper name) key) eqn:E; [|exact Hget].
    apply String.eqb_eq in E. subst key. congruence.
  - intros Hup. destruct Hshape as [->|(w & -> & _)]; [exact Hup|].
    constructor; [apply upper_idempotent | exact Hup].
Qed.

Lemma iata_cache_only_grows_witness :
  Forall (fun kv => upper (fst kv) = fst kv)
    (snd (get_city_iata_code [("PARIS", Some "PAR")] knows_lyon "Lyon")).
Proof.
  apply (proj2 (proj2 (iata_cache_only_grows [("PARIS", Some "PAR")] knows_lyon "Lyon"))).
  repeat constructor.
Defined.
